(** * Musiscope: the audio store and the wave viewer

    A shallow embedding of [src/libs/AudioRecorder.js] (the sample store),
    of the script of [src/components/WaveViewer.vue] (viewport,
    selection and renderer) and of the parent component that holds
    both, with the properties of the written specification stated and
    settled over it.

    Conventions of the embedding.
    - A JavaScript number is an exact rational ([Q]); rounding of IEEE
      doubles is not modelled.  [Math.floor], [Math.ceil], [Math.abs],
      [Math.max], [Math.min] are [Qfloor], [Qceiling], [Qabs], [Qmax],
      [Qmin].
    - A method of an object is a computation in a state-and-exception
      monad over the object's fields: a [throw] keeps the assignments
      made before it, as in JavaScript.
    - A [while] loop runs on fuel; running out of fuel is a third outcome,
      distinct from returning and from throwing.
    - Division is that of [Q], where [x / 0] is [0]; JavaScript gives an
      infinity or [NaN].  The only divisors are the length of the first
      block, whose zero case is spelled out in [getData], and the
      viewer's [scale], which is positive in every state the component
      reaches (0.003906252 at first, then clamped to [1/256, 16]); the
      statements that read a quotient by [scale] assume it positive. *)

From Stdlib Require Import ZArith QArith Qround Qabs Qminmax Qpower.
From Stdlib Require Import List Bool Lia Lqa.
Import ListNotations.

Local Open Scope Z_scope.

(** ** Outcomes and the method monad *)

Inductive exn : Type :=
| TypeError          (* property access on null or undefined *)
| NotSupportedError. (* DOMException raised by the Web Audio API *)

Inductive outcome (A : Type) : Type :=
| Ok (a : A)
| Throw (e : exn)
| OutOfFuel.

Arguments Ok {A} a.
Arguments Throw {A} e.
Arguments OutOfFuel {A}.

Definition M (S A : Type) : Type := S -> outcome A * S.

Definition ret {S A} (a : A) : M S A := fun s => (Ok a, s).

Definition bind {S A B} (m : M S A) (k : A -> M S B) : M S B :=
  fun s =>
    match m s with
    | (Ok a, s') => k a s'
    | (Throw e, s') => (Throw e, s')
    | (OutOfFuel, s') => (OutOfFuel, s')
    end.

Definition throw {S A} (e : exn) : M S A := fun s => (Throw e, s).
Definition get {S} : M S S := fun s => (Ok s, s).
Definition gets {S A} (f : S -> A) : M S A := fun s => (Ok (f s), s).
Definition modify {S} (f : S -> S) : M S unit := fun s => (Ok tt, f s).
Definition lift {S A} (o : outcome A) : M S A := fun s => (o, s).

Declare Scope js_scope.
Delimit Scope js_scope with js.
Notation "x <- m ;; k" := (bind m (fun x => k))
  (at level 61, m at next level, right associativity) : js_scope.
Notation "m ;; k" := (bind m (fun _ => k))
  (at level 61, right associativity) : js_scope.

(** [this.x.y] where [this.x] may be [null]. *)
Definition deref {S A} (o : option A) : M S A :=
  match o with
  | Some a => ret a
  | None => throw TypeError
  end.

(** A computation that leaves the state as it is, whatever its outcome. *)
Definition readonly {S A} (m : M S A) : Prop := forall s, snd (m s) = s.

(** ** Numbers *)

Definition Qltb (a b : Q) : bool := negb (Qle_bool b a).
Definition Qgtb (a b : Q) : bool := Qltb b a.
Definition Qgeb (a b : Q) : bool := Qle_bool b a.

(** [const clamp = (x, minX, maxX) => max(minX, min(maxX, x))] *)
Definition clamp (x minX maxX : Q) : Q := Qmax minX (Qmin maxX x).


(** ** Typed arrays and the Web Audio API

    Samples are 32-bit floats; the store only copies them, so a sample is
    a rational here and a [Float32Array] is a list of samples. *)

Definition sample : Type := Q.
Definition Float32Array : Type := list sample.

(** Relative index of [%TypedArray%.prototype.slice]: a negative index
    counts from the end, and the result is capped to [0 .. len]. *)
Definition relativeIndex (len k : Z) : Z :=
  if k <? 0 then Z.max (len + k) 0 else Z.min k len.

(** [a.slice(start, end)] for integral [start] and [end]. *)
Definition slice (a : Float32Array) (start end_ : Z) : Float32Array :=
  let len := Z.of_nat (length a) in
  let k := relativeIndex len start in
  let final := relativeIndex len end_ in
  firstn (Z.to_nat (final - k)) (skipn (Z.to_nat k) a).

(** A single-channel [AudioBuffer]. *)
Record AudioBuffer : Type := mkAudioBuffer {
  bufSampleRate : Q;
  channelData : Float32Array   (* getChannelData(0) *)
}.

Definition bufferLength (b : AudioBuffer) : Z :=
  Z.of_nat (length (channelData b)).

(** The frame count of [createBuffer] is an [unsigned long]: a count
    from 2^32 on does not reach the API as it is (the binding converts
    it modulo 2^32, so that 2^32 + 5 asks for 5 frames, or the
    implementation refuses it). *)
Definition maxFrames : Z := 2 ^ 32.

(** [acx.createBuffer(1, length, sampleRate)]: a zero-filled buffer of
    [length] frames.  The Web Audio API requires at least one frame and
    raises [NotSupportedError] otherwise.  The model is that of the
    counts below [maxFrames]; a statement on [getBuffer] that leaves the
    requested count free bounds it by [maxFrames].  (A negative count
    reaches the API wrapped to more than 2^31 frames, which it does not
    allocate; nothing below rests on that case.) *)
Definition createBuffer (sampleRate : Q) (len : Z) : outcome AudioBuffer :=
  if 0 <? len
  then Ok (mkAudioBuffer sampleRate (repeat 0%Q (Z.to_nat len)))
  else Throw NotSupportedError.

(** [buf.copyToChannel(source, 0, pos)]: overwrite the frames from [pos]
    on with [source], as far as the buffer reaches. *)
Definition copyToChannel (b : AudioBuffer) (source : Float32Array)
    (pos : nat) : AudioBuffer :=
  let d := channelData b in
  mkAudioBuffer (bufSampleRate b)
    (firstn pos d ++ firstn (length d - pos) source
       ++ skipn (pos + length source) d).

(** The total length of a list of blocks in the words of the
    specification: the sum of the block lengths.  The code has no such
    field; it computes [buffers.length * buffers[0].length] where it
    needs the total. *)
Definition totalSamples (bs : list Float32Array) : Z :=
  Z.of_nat (list_sum (map (@length sample) bs)).

(** All blocks have length [L]. *)
Definition uniform (L : nat) (bs : list Float32Array) : Prop :=
  Forall (fun c => length c = L) bs.

(** ** AudioRecorder: the sample store *)

Module AudioRecorder.

Local Open Scope js_scope.

Record t : Type := mk {
  sampleRate : Q;                 (* this.acx.sampleRate *)
  buffers : list Float32Array;    (* this.buffers *)
  clip : option AudioBuffer;      (* this.clip, None for null *)
  processor : bool;               (* this.processor is a node, not null *)
  recording : bool                (* this.recording *)
}.

Definition set_buffers (bs : list Float32Array) (r : t) : t :=
  mk (sampleRate r) bs (clip r) (processor r) (recording r).
Definition set_clip (c : option AudioBuffer) (r : t) : t :=
  mk (sampleRate r) (buffers r) c (processor r) (recording r).
Definition set_processor (b : bool) (r : t) : t :=
  mk (sampleRate r) (buffers r) (clip r) b (recording r).
Definition set_recording (b : bool) (r : t) : t :=
  mk (sampleRate r) (buffers r) (clip r) (processor r) b.

(** [constructor (acx, input)] *)
Definition constructor (sr : Q) : t := mk sr [] None false false.

(** [clear ()]: [this.clip = null; this.buffers = []]. *)
Definition clear : M t unit :=
  modify (set_clip None) ;;
  modify (set_buffers []).

(** The [onaudioprocess] callback installed by [record]: the incoming
    block is pushed on [this.buffers].  ([onData] is never assigned in
    the repository, so that branch is not taken.) *)
Definition onaudioprocess (buffer : Float32Array) : M t unit :=
  modify (fun r => set_buffers (buffers r ++ [buffer]) r).

(** [stop ()].  Of the audio graph only the presence of the script
    processor is kept: [this.processor.disconnect()] needs one. *)
Definition stop : M t unit :=
  modify (set_recording false) ;;
  node <- gets processor ;;
  (if node then ret tt else throw TypeError) ;;
  modify (set_processor false).

(** [record ()]: a running recording is stopped, the store is cleared,
    a script processor is created and the callback above installed. *)
Definition record : M t unit :=
  rec <- gets recording ;;
  (if rec then stop else ret tt) ;;
  clear ;;
  modify (set_recording true) ;;
  modify (set_processor true).

(** The loop of [createClip]: chunk [i] is copied to [i * bufLen]. *)
Fixpoint copyChunks (bufLen : nat) (i : nat) (bs : list Float32Array)
    (c : AudioBuffer) : AudioBuffer :=
  match bs with
  | [] => c
  | tmp :: rest =>
      copyChunks bufLen (S i) rest (copyToChannel c tmp (i * bufLen))
  end.

(** [createClip ()] *)
Definition createClip : M t unit :=
  bs <- gets buffers ;;
  match bs with
  | [] => ret tt                                  (* if (!length) return *)
  | b0 :: _ =>
      let bufLen := length b0 in
      let len := (length bs * bufLen)%nat in
      sr <- gets sampleRate ;;
      c <- lift (createBuffer sr (Z.of_nat len)) ;;
      modify (set_clip (Some (copyChunks bufLen 0 bs c)))
  end.

(** An argument of [getBuffer]: omitted ([undefined]) or an integer. *)
Definition arg : Type := option Z.

(** [x || d] for such an argument: [undefined] and [0] are falsy. *)
Definition truthy (x : arg) : option Z :=
  match x with
  | Some z => if z =? 0 then None else Some z
  | None => None
  end.

(** [getBuffer (start, end)] *)
Definition getBuffer (start end_ : arg) : M t AudioBuffer :=
  c0 <- gets clip ;;
  (match c0 with None => createClip | Some _ => ret tt end) ;;
  let start := match truthy start with Some z => z | None => 0 end in
  end_ <- match truthy end_ with
          | Some z => ret z
          | None => c <- gets clip ;; c <- deref c ;; ret (bufferLength c)
          end ;;
  c <- gets clip ;;
  c <- deref c ;;
  let data := slice (channelData c) start end_ in
  sr <- gets sampleRate ;;
  buf <- lift (createBuffer sr (end_ - start)) ;;
  ret (copyToChannel buf data 0).

(** The store's total length. *)
Definition totalLength (r : t) : Z := totalSamples (buffers r).



(** The state reached from a new recorder by a sequence of blocks. *)
Definition appended (sr : Q) (chunks : list Float32Array) : t :=
  fold_left (fun r c => snd (onaudioprocess c r)) chunks (constructor sr).

End AudioRecorder.

(** ** JavaScript values met by the renderer *)

(** A number as the renderer meets it: finite, an infinity (the initial
    [minv] and [maxv]) or [NaN] (arithmetic on [undefined]). *)
Inductive number : Type :=
| Fin (q : Q)
| PosInf
| NegInf
| NaN.

(** What an array read yields: a number or [undefined]. *)
Inductive jsval : Type :=
| JSNumber (q : Q)
| JSUndefined.

(** [a < b] on numbers; a comparison with [NaN] is false. *)
Definition num_ltb (a b : number) : bool :=
  match a, b with
  | NaN, _ | _, NaN => false
  | Fin x, Fin y => Qltb x y
  | NegInf, (Fin _ | PosInf) => true
  | Fin _, PosInf => true
  | _, _ => false
  end.

(** [100 * value] *)
Definition times100 (v : jsval) : number :=
  match v with
  | JSNumber q => Fin (100 * q)
  | JSUndefined => NaN
  end.

Definition toNumber (v : jsval) : number :=
  match v with
  | JSNumber q => Fin q
  | JSUndefined => NaN
  end.

(** Truncation towards zero, and JavaScript's [%] on it. *)
Definition Qtrunc (q : Q) : Z :=
  if Qle_bool 0 q then Qfloor q else Qceiling q.

Definition Qrem (a b : Q) : Q := a - b * inject_Z (Qtrunc (a / b)).

(** [q] as an array index: [Some k] when [q] is the integer [k >= 0]. *)
Definition arrayIndex (q : Q) : option nat :=
  if Qeq_bool q (inject_Z (Qfloor q)) && (0 <=? Qfloor q)
  then Some (Z.to_nat (Qfloor q))
  else None.

(** [a[j]] on a typed array. *)
Definition typedGet (a : Float32Array) (j : Q) : jsval :=
  match arrayIndex j with
  | Some k =>
      match nth_error a k with
      | Some x => JSNumber x
      | None => JSUndefined
      end
  | None => JSUndefined
  end.

(** A [while] loop over local variables. *)
Fixpoint while {A : Type} (fuel : nat) (cond : A -> bool) (body : A -> A)
    (x : A) : outcome A :=
  if cond x then
    match fuel with
    | O => OutOfFuel
    | S fuel' => while fuel' cond body (body x)
    end
  else Ok x.

(** ** WaveViewer: viewport, selection and renderer *)

Module WaveViewer.

Local Open Scope js_scope.
Local Open Scope Q_scope.

(** The canvas of the template: [<canvas width="512" height="512">]. *)
Definition cv_width : Q := 512.
Definition cv_height : Q := 512.

(** The props handed down by Musiscope. *)
Record props : Type := mkProps {
  sampleRate : Q;                        (* this.acx.sampleRate *)
  buffers : option (list Float32Array);  (* this.buffers, None for null *)
  recording : bool                       (* this.recorder.recording *)
}.

Record Selection : Type := mkSelection {
  sel_start : Q;
  sel_end : Q
}.

Inductive timeUnit : Type := Seconds | Millis | Micros.

(** What [render] puts on the canvas, colours left out.  Every [render]
    starts by painting the whole canvas black, so the canvas holds the
    drawing calls of the last [render] only. *)
Inductive drawOp : Type :=
| FillRect (x y w h : Q)
| FillText (mul : Q) (unit : timeUnit) (x y : Q)
| Stroke (path : list (Q * number))        (* moveTo, lineTo ... (x, y) *)
| FillColumn (x : Q) (minv maxv : number). (* fillRect(x, minv - 1, 2,
                                              maxv - minv + 2) *)

(** The component's data.  [dragging] is not declared in [data()]: it is
    [undefined], hence falsy, until the first [mousedown].  [emitted]
    logs the payloads of [$emit('selection', ...)], oldest first; the
    payload is the selection object itself, logged with the fields it
    has when it is emitted. *)
Record t : Type := mk {
  bufLen : Q;
  end_ : Q;
  scale : Q;
  lockWave : bool;
  selection : Selection;
  timeSliderValue : Q;
  dragging : bool;
  canvas : list drawOp;
  emitted : list Selection
}.

(** [data: () => ({ ... })] *)
Definition data : t :=
  mk 0 0 (3906252 # 1000000000) true (mkSelection 0 0) 50 false [] [].

Definition set_bufLen (x : Q) (v : t) : t :=
  mk x (end_ v) (scale v) (lockWave v) (selection v) (timeSliderValue v)
    (dragging v) (canvas v) (emitted v).
Definition set_end (x : Q) (v : t) : t :=
  mk (bufLen v) x (scale v) (lockWave v) (selection v) (timeSliderValue v)
    (dragging v) (canvas v) (emitted v).
Definition set_scale (x : Q) (v : t) : t :=
  mk (bufLen v) (end_ v) x (lockWave v) (selection v) (timeSliderValue v)
    (dragging v) (canvas v) (emitted v).
Definition set_selection (x : Selection) (v : t) : t :=
  mk (bufLen v) (end_ v) (scale v) (lockWave v) x (timeSliderValue v)
    (dragging v) (canvas v) (emitted v).
Definition set_dragging (x : bool) (v : t) : t :=
  mk (bufLen v) (end_ v) (scale v) (lockWave v) (selection v)
    (timeSliderValue v) x (canvas v) (emitted v).
Definition set_canvas (x : list drawOp) (v : t) : t :=
  mk (bufLen v) (end_ v) (scale v) (lockWave v) (selection v)
    (timeSliderValue v) (dragging v) x (emitted v).
Definition set_emitted (x : list Selection) (v : t) : t :=
  mk (bufLen v) (end_ v) (scale v) (lockWave v) (selection v)
    (timeSliderValue v) (dragging v) (canvas v) x.

Definition set_sel_start (x : Q) (v : t) : t :=
  set_selection (mkSelection x (sel_end (selection v))) v.
Definition set_sel_end (x : Q) (v : t) : t :=
  set_selection (mkSelection (sel_start (selection v)) x) v.

(** The computed property [start]:
    [max(0, end - ceil(cv.width / scale) - 1)]. *)
Definition start (v : t) : Q :=
  Qmax 0 (end_ v - inject_Z (Qceiling (cv_width / scale v)) - 1).

Definition draw (op : drawOp) : M t unit :=
  modify (fun v => set_canvas (canvas v ++ [op]) v).

(** The sample lookup of [render]:
[[
    const getData = i => {
      const buf = floor(i / buffers[0].length)
      const j = i % buffers[0].length
      return buffers[buf] ? buffers[buf][j] : 0
    }
]]
    [render] has returned before this point when [buffers] is empty, so
    [buffers[0]] is there.  When that block is empty the quotient is an
    infinity or [NaN], which indexes nothing. *)
Definition getData (bufs : list Float32Array) (i : Q) : jsval :=
  let len0 := inject_Z (Z.of_nat (length (hd [] bufs))) in
  if Qeq_bool len0 0 then JSNumber 0
  else
    let buf := Qfloor (i / len0) in
    let j := Qrem i len0 in
    match (if (0 <=? buf)%Z then nth_error bufs (Z.to_nat buf)
           else None) with
    | Some chunk => typedGet chunk j
    | None => JSNumber 0
    end.

(** Number of rounds of [for (let i = 0; i < len; i++)]. *)
Definition rounds (len : Q) : nat := Z.to_nat (Qceiling len).

Section Methods.

Variable fuel : nat.   (* for the [while] loops of the renderer *)
Variable p : props.

(** The first loop of [renderScale]:
    [let mul = 1; while (pps * mul > cv.width / 2) mul /= 10]. *)
Definition rulerMul (pps : Q) : outcome Q :=
  while fuel (fun mul => Qgtb (pps * mul) (cv_width / 2))
             (fun mul => mul / 10) 1.

(** [renderScale ()] *)
Definition renderScale : M t unit :=
  v <- get ;;
  let pps := sampleRate p * scale v in
  mul <- lift (rulerMul pps) ;;
  let len := pps * mul in
  let unit := if Qgeb mul 1 then Seconds
              else if Qgeb mul (1 # 1000) then Millis else Micros in
  mul <- lift (while fuel (fun mul => Qltb mul 1)
                          (fun mul => mul * 1000) mul) ;;
  draw (FillRect (cv_width / 2 - len / 2) ((4 # 10) * cv_height) len 2) ;;
  draw (FillText mul unit (cv_width / 2) ((38 # 100) * cv_height)).

(** The wave-lock scan of [render]: the offset [maxi] of the largest
    value among [getData(end - i)], [i] from [0]. *)
Fixpoint lockScan (bufs : list Float32Array) (end0 : Q) (ix : list nat)
    (maxv : number) (maxi : nat) : nat :=
  match ix with
  | [] => maxi
  | i :: rest =>
      let qi := inject_Z (Z.of_nat i) in
      if Qltb (end0 - qi) 0 then maxi                          (* break *)
      else
        let value := toNumber (getData bufs (end0 - qi)) in
        if num_ltb maxv value
        then lockScan bufs end0 rest value i
        else lockScan bufs end0 rest maxv maxi
  end.

(** One column of the zoomed-out drawing: the least and the largest of
    [100 * getData(start + i + j)] for [j < chunk]. *)
Definition columnRange (bufs : list Float32Array) (from : Q) (chunk : Z)
    : number * number :=
  fold_left
    (fun '(minv, maxv) j =>
       let value :=
         times100 (getData bufs (from + inject_Z (Z.of_nat j))) in
       (if num_ltb value minv then value else minv,
        if num_ltb maxv value then value else maxv))
    (seq 0 (Z.to_nat chunk)) (PosInf, NegInf).

(** [render ()] *)
Definition render : M t unit :=
  v <- get ;;
  let start0 := start v in
  let len := end_ v - start0 in
  modify (set_canvas []) ;;
  renderScale ;;
  bufs <- deref (buffers p) ;;
  match bufs with
  | [] => ret tt
  | b0 :: _ =>
      (if Qgtb (scale v) (1 # 32) then
         let maxi :=
           if lockWave v && Qeq_bool (end_ v) (bufLen v)
           then lockScan bufs (end_ v) (seq 0 (length b0)) NegInf 0
           else 0%nat in
         draw (Stroke
           (map (fun i =>
                   let qi := inject_Z (Z.of_nat i) in
                   let value :=
                     getData bufs
                       (start0 + qi - inject_Z (Z.of_nat maxi)) in
                   (qi * scale v, times100 value))
                (seq 0 (rounds len))))
       else
         let chunk := Qfloor (1 / scale v) in
         r <- lift (while fuel (fun '(i, _) => Qltb i len)
                     (fun '(i, ops) =>
                        let '(minv, maxv) :=
                          columnRange bufs (start0 + i) chunk in
                        (i + inject_Z chunk,
                         ops ++ [FillColumn (i * scale v) minv maxv]))
                     (0, [])) ;;
         modify (fun v' => set_canvas (canvas v' ++ snd r) v')) ;;
      (if Qltb (sel_start (selection v)) (end_ v)
          && Qgtb (sel_end (selection v)) start0
       then draw (FillRect ((sel_start (selection v) - start0) * scale v)
                    (- cv_height / 2)
                    ((sel_end (selection v) - sel_start (selection v))
                     * scale v)
                    cv_height)
       else ret tt)
  end.

(** [zoom (delta)], for a whole number of wheel or slider steps, so that
    [pow(1.01, delta)] is a rational. *)
Definition zoom (delta : Z) : M t unit :=
  v <- get ;;         (* const { cv, bufLen, start, end, scale } = this *)
  let start0 := start v in
  modify (set_scale
            (clamp (scale v * Qpower (101 # 100) delta) (1 # 256) 16)) ;;
  (if negb (recording p) then
     start1 <- gets start ;;                           (* this.start *)
     let diff := start1 - start0 in
     let minEnd := Qmin (cv_width / scale v) (bufLen v) in
     modify (set_end
               (clamp (inject_Z (Qfloor (end_ v - diff / 2)))
                  minEnd (bufLen v)))
   else ret tt) ;;
  render.

(** [skip (delta)] *)
Definition skip (delta : Q) : M t unit :=
  v <- get ;;
  let minEnd := Qmin (cv_width / scale v) (bufLen v) in
  modify (set_end
            (clamp (inject_Z (Qfloor (end_ v + delta / scale v)))
               minEnd (bufLen v))) ;;
  end1 <- gets end_ ;;
  if negb (Qeq_bool end1 (end_ v)) then render else ret tt.

(** [timeSliderInput (e)], [value] being [e.target.value]. *)
Definition timeSliderInput (value : Z) : M t unit :=
  modify (set_scale (3906252 # 1000000000)) ;;
  zoom (16 * value).

(** The click handler of the "live" button: [end = bufLen; render()]. *)
Definition live : M t unit :=
  v <- get ;;
  modify (set_end (bufLen v)) ;;
  render.

(** [mousedown (e)], [offsetX] being [e.offsetX]. *)
Definition mousedown (offsetX : Q) : M t unit :=
  modify (set_dragging true) ;;
  v <- get ;;
  modify (set_sel_start (start v + offsetX / scale v)) ;;
  v <- get ;;
  modify (set_sel_end (sel_start (selection v))) ;;
  render.

(** [mousemove (e)] *)
Definition mousemove (offsetX : Q) : M t unit :=
  v <- get ;;
  if negb (dragging v) then ret tt
  else
    let i := start v + offsetX / scale v in
    (if Qgtb i (sel_start (selection v))
     then modify (set_sel_end i)
     else modify (set_sel_start i)) ;;
    render.

(** [mouseup ()] *)
Definition mouseup : M t unit :=
  modify (set_dragging false) ;;
  v <- get ;;
  modify (set_emitted (emitted v ++ [selection v])).

(** [update (buffers)], the watcher of the [buffers] prop. *)
Definition update (bufs : option (list Float32Array)) : M t unit :=
  match bufs with
  | None | Some [] =>
      modify (set_sel_start 0) ;;
      modify (set_sel_end 0) ;;
      modify (set_bufLen 0) ;;
      modify (set_end 0) ;;
      render
  | Some ((b0 :: _) as bs) =>
      v <- get ;;                 (* const { bufLen, end, scale } = this *)
      let newBufLen :=
        inject_Z (Z.of_nat (length bs) * Z.of_nat (length b0)) in
      (if Qltb (Qabs (end_ v - bufLen v)) (64 / scale v)
          || Qgtb (bufLen v) newBufLen
       then modify (set_end newBufLen)
       else ret tt) ;;
      modify (set_bufLen newBufLen) ;;
      render
  end.

(** [mousewheel (e)], with [e.deltaX] and a whole [e.deltaY]. *)
Definition mousewheel (deltaX : Q) (deltaY : Z) : M t unit :=
  match buffers p with
  | None | Some [] => ret tt
  | Some _ =>
      (if Qgeb (Qabs deltaX) (Qabs (inject_Z deltaY))
       then skip deltaX else ret tt) ;;
      (if Qgeb (Qabs (inject_Z deltaY)) (Qabs deltaX)
       then zoom deltaY else ret tt)
  end.

End Methods.

(** The screen-to-sample mapping of the mouse handlers. *)
Definition sampleIndex (v : t) (offsetX : Q) : Q :=
  start v + offsetX / scale v.

(** [mul] after [k] rounds of [mul /= 10]. *)
Fixpoint tenths (k : nat) (mul : Q) : Q :=
  match k with
  | O => mul
  | S k' => tenths k' (mul / 10)
  end.

(** The ruler factor in the words of the specification: the largest
    power of ten, of any sign of the exponent, whose bar
    [pps * mul] fits half of the canvas. *)
Definition largestPowerOfTen (pps mul : Q) : Prop :=
  (exists z : Z, mul == Qpower 10 z) /\
  pps * mul <= cv_width / 2 /\
  forall z : Z, pps * Qpower 10 z <= cv_width / 2 -> Qpower 10 z <= mul.

(** A computation that changes no field but [canvas]. *)
Definition paints {A} (m : M t A) : Prop :=
  forall v, exists c, snd (m v) = set_canvas c v.

(** The new [end] that the specification gives for [zoom(delta)] when
    not recording: as in the code, but with the lower bound [minEnd]
    taken at the new scale. *)
Definition claimedZoomEnd (v : t) (delta : Z) : Q :=
  let scale' := clamp (scale v * Qpower (101 # 100) delta) (1 # 256) 16 in
  let start' := start (set_scale scale' v) in
  let minEnd := Qmin (cv_width / scale') (bufLen v) in
  clamp (inject_Z (Qfloor (end_ v - (start' - start v) / 2)))
    minEnd (bufLen v).

(** The events that reach the component, each handled with the props
    of the moment: the slider, the mouse, the four pan buttons
    ([skip(-128)], [skip(-16)], [skip(16)], [skip(128)]), the "live"
    button and the watcher of the [buffers] prop. *)
Inductive event : Type :=
| TimeSliderInput (value : Z)
| MouseDown (offsetX : Q)
| MouseMove (offsetX : Q)
| MouseUp
| MouseWheel (deltaX : Q) (deltaY : Z)
| SkipButton (delta : Q)
| LiveButton
| BuffersChanged.

Definition handle (fuel : nat) (p : props) (e : event) : M t unit :=
  match e with
  | TimeSliderInput value => timeSliderInput fuel p value
  | MouseDown offsetX => mousedown fuel p offsetX
  | MouseMove offsetX => mousemove fuel p offsetX
  | MouseUp => mouseup
  | MouseWheel deltaX deltaY => mousewheel fuel p deltaX deltaY
  | SkipButton delta => skip fuel p delta
  | LiveButton => live fuel p
  | BuffersChanged => update fuel p (buffers p)
  end.

(** The component after a sequence of events; a handler that throws
    leaves the fields it had assigned, and the next event finds them. *)
Definition run (fuel : nat) (es : list (props * event)) (v : t) : t :=
  fold_left (fun v pe => snd (handle fuel (fst pe) (snd pe) v)) es v.

(** The scale is within its bounds, the window ends within the data and
    the selection is not inverted. *)
Definition wellFormed (v : t) : Prop :=
  (1 # 256 <= scale v /\ scale v <= 16) /\
  (0 <= end_ v /\ end_ v <= bufLen v) /\
  sel_start (selection v) <= sel_end (selection v).

(** A computation that keeps a well-formed component well-formed,
    whatever its outcome. *)
Definition keeps {A} (m : M t A) : Prop :=
  forall v, wellFormed v -> wellFormed (snd (m v)).

End WaveViewer.

(** ** Musiscope: the parent component

    Of the component that holds the recorder and the wave viewer (its
    file is [src/unnamed/part_000] here): the selection it keeps, the
    players it tracks and the buttons that reach the recorder.  The
    microphone, the gain and the audio output are outside of the
    model. *)

(** [a.indexOf(x)] on an array of identities. *)
Fixpoint indexOf (x : nat) (a : list nat) : Z :=
  match a with
  | [] => -1
  | y :: rest =>
      if Nat.eqb x y then 0
      else
        let k := indexOf x rest in
        if k <? 0 then -1 else k + 1
  end.

(** [a.splice(start, 1)], the array that is left: a negative [start]
    counts from the end, and nothing is removed at or past the end. *)
Definition spliceOne {A} (start : Z) (a : list A) : list A :=
  let k := Z.to_nat (relativeIndex (Z.of_nat (length a)) start) in
  firstn k a ++ skipn (S k) a.

Module Musiscope.

Local Open Scope js_scope.

(** [selection] is either [null] or the selection object of the
    wave viewer, which emits that very object and never another: the
    field only records which of the two, and the object is read in the
    viewer.  A player is known by its rank of creation. *)
Record t : Type := mk {
  recorder : AudioRecorder.t;   (* this.recorder *)
  viewer : WaveViewer.t;        (* the <wave-viewer> child *)
  selection : bool;             (* this.selection is not null *)
  players : list nat;           (* this.players *)
  created : nat                 (* buffer sources created so far *)
}.

Definition set_recorder (x : AudioRecorder.t) (a : t) : t :=
  mk x (viewer a) (selection a) (players a) (created a).
Definition set_viewer (x : WaveViewer.t) (a : t) : t :=
  mk (recorder a) x (selection a) (players a) (created a).
Definition set_selection (x : bool) (a : t) : t :=
  mk (recorder a) (viewer a) x (players a) (created a).
Definition set_players (x : list nat) (a : t) : t :=
  mk (recorder a) (viewer a) (selection a) x (created a).
Definition set_created (x : nat) (a : t) : t :=
  mk (recorder a) (viewer a) (selection a) (players a) x.

(** A method of the recorder, called on [this.recorder]. *)
Definition onRecorder {A} (m : M AudioRecorder.t A) : M t A :=
  fun a =>
    let (o, r) := m (recorder a) in (o, set_recorder r a).

(** A method of the wave viewer, run in the child. *)
Definition onViewer {A} (m : M WaveViewer.t A) : M t A :=
  fun a =>
    let (o, v) := m (viewer a) in (o, set_viewer v a).

(** The props bound in the template:
    [:acx="acx" :buffers="recorder.buffers" :recorder="recorder"]. *)
Definition viewerProps (a : t) : WaveViewer.props :=
  WaveViewer.mkProps (AudioRecorder.sampleRate (recorder a))
    (Some (AudioRecorder.buffers (recorder a)))
    (AudioRecorder.recording (recorder a)).

(** [setSelection (selection)], called with the object the viewer
    emits:
[[
    const w = selection.end - selection.start
    this.selection = w ? selection : null
]] *)
Definition setSelection : M t unit :=
  a <- get ;;
  let s := WaveViewer.selection (viewer a) in
  let w := (WaveViewer.sel_end s - WaveViewer.sel_start s)%Q in
  modify (set_selection (negb (Qeq_bool w 0))).

(** An event of the wave viewer.  [mouseup] emits [selection], which
    the template binds to [setSelection]; the handler runs within the
    [$emit]. *)
Definition viewerEvent (fuel : nat) (e : WaveViewer.event) : M t unit :=
  a <- get ;;
  onViewer (WaveViewer.handle fuel (viewerProps a) e) ;;
  match e with
  | WaveViewer.MouseUp => setSelection
  | _ => ret tt
  end.

(** The "clear" button, [@click="recorder.clear()"], and the watcher of
    the viewer that the change of [recorder.buffers] sets off. *)
Definition clearClicked (fuel : nat) : M t unit :=
  onRecorder AudioRecorder.clear ;;
  viewerEvent fuel WaveViewer.BuffersChanged.

(** [playClip ()]: a buffer source is created, given the whole clip and
    pushed on [players]; connecting and starting it is outside of the
    model. *)
Definition playClip : M t unit :=
  a <- get ;;
  let player := created a in
  modify (set_created (S player)) ;;
  onRecorder (AudioRecorder.getBuffer None None) ;;
  modify (fun a => set_players (players a ++ [player]) a).

(** The [onended] handler that [playClip] and [playSelection] give to
    their player:
    [this.players.splice(this.players.indexOf(player), 1)]. *)
Definition onended (player : nat) : M t unit :=
  modify (fun a => set_players (spliceOne (indexOf player (players a))
                                  (players a)) a).

(** [stopAllPlayers ()]:
[[
    while (this.players.length) {
      const player = this.players.pop()
      player.stop()
      player.disconnect()
    }
]]
    The loop is run on the array and the players it stops, in the order
    in which it stops them; the array is as long as the fuel it gets. *)
Definition stopAllPlayers : M t (list nat) :=
  a <- get ;;
  r <- lift (while (length (players a))
               (fun '(ps, _) => negb (Nat.eqb (length ps) 0))
               (fun '(ps, stopped) =>
                  (removelast ps, stopped ++ [last ps 0%nat]))
               (players a, [])) ;;
  modify (set_players (fst r)) ;;
  ret (snd r).

End Musiscope.

(** * Comparisons *)

Lemma Qltb_lt a b : Qltb a b = true <-> (a < b)%Q.
Proof.
  unfold Qltb. rewrite negb_true_iff, <- not_true_iff_false, Qle_bool_iff.
  split; [apply Qnot_le_lt | apply Qlt_not_le].
Qed.

Lemma Qltb_ge a b : Qltb a b = false <-> (b <= a)%Q.
Proof.
  unfold Qltb. rewrite negb_false_iff. apply Qle_bool_iff.
Qed.

(** * Properties of the sample store *)

Module StoreFacts.

Import AudioRecorder.

Ltac run :=
  unfold getBuffer, createClip, clear, onaudioprocess, record, stop,
    bind, ret, gets, modify, lift, deref, throw; simpl.

(** *** Appending and clearing *)

Lemma onaudioprocess_buffers b r :
  buffers (snd (onaudioprocess b r)) = buffers r ++ [b].
Proof. reflexivity. Qed.

Lemma onaudioprocess_clip b r :
  clip (snd (onaudioprocess b r)) = clip r.
Proof. reflexivity. Qed.

Lemma clear_state r :
  snd (clear r) = mk (sampleRate r) [] None (processor r) (recording r).
Proof. reflexivity. Qed.

(** [record] starts from an empty store without a clip. *)
Lemma record_state r :
  recording r = processor r ->
  record r = (Ok tt, mk (sampleRate r) [] None true true).
Proof.
  intros Hnode. unfold record, stop, clear, bind, gets, modify, ret, throw.
  cbv beta iota.
  destruct r as [sr bs c node rec]. simpl in *. subst rec.
  destruct node; reflexivity.
Qed.



(** *** Materialising the clip *)


Lemma uniform_sum_length L bs :
  uniform L bs -> list_sum (map (@length sample) bs) = (length bs * L)%nat.
Proof.
  induction 1 as [|c bs Hc _ IH]; simpl; [reflexivity|].
  now rewrite IH, Hc.
Qed.


Lemma copyToChannel_rate b src pos :
  bufSampleRate (copyToChannel b src pos) = bufSampleRate b.
Proof. reflexivity. Qed.





(** *** Reading a range *)

Lemma truthy_start a :
  match truthy (Some a) with Some z => z | None => 0 end = a.
Proof.
  unfold truthy. destruct (Z.eqb_spec a 0); congruence.
Qed.

Lemma truthy_end b : b <> 0 -> truthy (Some b) = Some b.
Proof.
  intros Hb. unfold truthy. destruct (Z.eqb_spec b 0); congruence.
Qed.

(** With a clip at hand and [a < b], [getBuffer] allocates [b - a]
    frames and copies the slice of the clip into them. *)
Lemma getBuffer_with_clip r c a b :
  clip r = Some c -> a < b -> b <> 0 ->
  getBuffer (Some a) (Some b) r
  = (Ok (copyToChannel
           (mkAudioBuffer (sampleRate r) (repeat 0%Q (Z.to_nat (b - a))))
           (slice (channelData c) a b) 0), r).
Proof.
  intros Hc Hab Hb. unfold getBuffer.
  rewrite truthy_start, (truthy_end b Hb).
  assert (Hpos : (0 <? b - a) = true) by (apply Z.ltb_lt; lia).
  run. rewrite Hc. unfold createBuffer, ret. simpl.
  rewrite Hc, Hpos. reflexivity.
Qed.

Lemma slice_in_range (d : Float32Array) a b :
  0 <= a -> a <= b -> b <= Z.of_nat (length d) ->
  slice d a b = firstn (Z.to_nat (b - a)) (skipn (Z.to_nat a) d).
Proof.
  intros Ha Hab Hb. unfold slice, relativeIndex.
  destruct (Z.ltb_spec a 0); [lia|].
  destruct (Z.ltb_spec b 0); [lia|].
  now rewrite !Z.min_l by lia.
Qed.

Lemma slice_length_in_range (d : Float32Array) a b :
  0 <= a -> a <= b -> b <= Z.of_nat (length d) ->
  length (slice d a b) = Z.to_nat (b - a).
Proof.
  intros Ha Hab Hb. rewrite slice_in_range by assumption.
  rewrite length_firstn, length_skipn. lia.
Qed.

Lemma copyToChannel_whole sr n (src : Float32Array) :
  length src = n ->
  copyToChannel (mkAudioBuffer sr (repeat 0%Q n)) src 0
  = mkAudioBuffer sr src.
Proof.
  intros Hn. unfold copyToChannel; simpl.
  rewrite repeat_length, Nat.sub_0_r, firstn_all2 by lia.
  rewrite skipn_all2 by (rewrite repeat_length; lia).
  now rewrite app_nil_r.
Qed.



Lemma getBuffer_materialises r r' c a b :
  clip r = None -> createClip r = (Ok tt, r') -> clip r' = Some c ->
  getBuffer a b r = getBuffer a b r'.
Proof.
  intros Hnone Hcreate Hc. unfold getBuffer, bind, gets.
  rewrite Hnone, Hcreate, Hc. reflexivity.
Qed.

Lemma getBuffer_cleared a b sr node rec :
  getBuffer a b (mk sr [] None node rec)
  = (Throw TypeError, mk sr [] None node rec).
Proof.
  unfold getBuffer. destruct (truthy b); reflexivity.
Qed.

(** A full read with a clip at hand returns a copy of the clip. *)
Lemma getBuffer_full_with_clip r c :
  clip r = Some c -> channelData c <> [] ->
  getBuffer None None r
  = (Ok (mkAudioBuffer (sampleRate r) (channelData c)), r).
Proof.
  intros Hc Hne.
  assert (Hlen : (0 < length (channelData c))%nat).
  { destruct (channelData c); [congruence | simpl; lia]. }
  assert (Hpos : (0 <? Z.of_nat (length (channelData c)) - 0) = true)
    by (apply Z.ltb_lt; lia).
  run. rewrite Hc. unfold createBuffer, ret, bufferLength. simpl.
  rewrite Hc, Hpos. rewrite Hc. cbv beta iota.
  rewrite copyToChannel_whole.
  - rewrite slice_in_range by lia.
    rewrite Z.sub_0_r, Nat2Z.id. simpl. now rewrite firstn_all.
  - rewrite slice_length_in_range by lia. reflexivity.
Qed.

(** A cached clip is what a full read returns, whatever has been
    appended since. *)
Lemma getBuffer_reads_cached_clip r c b :
  clip r = Some c -> channelData c <> [] ->
  fst (getBuffer None None (snd (onaudioprocess b r)))
  = Ok (mkAudioBuffer (sampleRate r) (channelData c)).
Proof.
  intros Hc Hne.
  rewrite (getBuffer_full_with_clip _ c); [reflexivity | | assumption].
  now rewrite onaudioprocess_clip.
Qed.

(** *** The claims on the store *)

(** C1 (the code departs from the claim).  Appending a block does not
    discard the cached clip: a recorder that has materialised its clip
    and then receives another block keeps the old clip, and the next
    [getBuffer] returns it without the new block.  Only [clear] resets
    the clip. *)
Theorem onaudioprocess_keeps_stale_clip :
  let r0 := appended 44100 [[1; 2]]%Q in
  let r1 := snd (getBuffer None None r0) in
  let r2 := snd (onaudioprocess [3; 4]%Q r1) in
  clip r1 = Some (mkAudioBuffer 44100 [1; 2]%Q) /\
  buffers r2 = [[1; 2]; [3; 4]]%Q /\
  clip r2 = clip r1 /\
  fst (getBuffer None None r2) = Ok (mkAudioBuffer 44100 [1; 2]%Q) /\
  clip (snd (clear r2)) = None.
Proof. repeat split. Qed.




(** The general form of what follows: after [clear], whatever the
    store held, the block list is empty, the total length is 0 and the
    clip is gone; clearing again changes nothing; and every [getBuffer]
    raises [TypeError]. *)
Lemma clear_resets r :
  let r' := snd (clear r) in
  buffers r' = [] /\ clip r' = None /\ totalLength r' = 0 /\
  clear r' = (Ok tt, r') /\
  forall a b, getBuffer a b r' = (Throw TypeError, r').
Proof.
  rewrite clear_state. simpl. repeat split.
  intros a b. apply getBuffer_cleared.
Qed.

(** C3 (the code departs from the claim).  After blocks were appended,
    the clip materialised and the store cleared, the store is empty as
    claimed (no block, no clip, total length 0, and clearing again
    changes nothing), but [getBuffer] returns no empty buffer: it
    fails.  [createClip] returns early on the empty store and leaves
    [this.clip] at [null], which [getBuffer] then dereferences, in
    [getBuffer()] as in the [getBuffer(0, 0)] that playing the
    selection asks for once the viewer has reset it to [{0, 0}]. *)
Theorem getBuffer_after_clear_throws :
  let r0 := appended 44100 [[1; 2]; [3; 4]]%Q in
  let r1 := snd (getBuffer None None r0) in
  let r2 := snd (clear r1) in
  clip r1 = Some (mkAudioBuffer 44100 [1; 2; 3; 4]%Q) /\
  (buffers r2 = [] /\ clip r2 = None /\ totalLength r2 = 0 /\
   clear r2 = (Ok tt, r2)) /\
  createClip r2 = (Ok tt, r2) /\
  getBuffer None None r2 = (Throw TypeError, r2) /\
  getBuffer (Some 0) (Some 0) r2 = (Throw TypeError, r2).
Proof. repeat split. Qed.




End StoreFacts.

(** * Properties of the wave viewer *)

Module ViewerFacts.

Import WaveViewer.
Local Open Scope Q_scope.

(** *** [render] touches the canvas only *)

Lemma set_canvas_twice c c' v :
  set_canvas c' (set_canvas c v) = set_canvas c' v.
Proof. reflexivity. Qed.

Lemma paints_ret {A} (a : A) : paints (ret a).
Proof. intros v. exists (canvas v). now destruct v. Qed.

Lemma paints_get : paints get.
Proof. intros v. exists (canvas v). now destruct v. Qed.

Lemma paints_lift {A} (o : outcome A) : paints (lift o).
Proof. intros v. exists (canvas v). now destruct v. Qed.

Lemma paints_deref {A} (o : option A) : paints (deref o).
Proof. intros v. exists (canvas v). destruct o; now destruct v. Qed.

Lemma paints_set_canvas (f : t -> list drawOp) :
  paints (modify (fun v => set_canvas (f v) v)).
Proof. intros v. now exists (f v). Qed.

Lemma paints_draw op : paints (draw op).
Proof. apply paints_set_canvas. Qed.

Lemma paints_bind {A B} (m : M t A) (k : A -> M t B) :
  paints m -> (forall a, paints (k a)) -> paints (bind m k).
Proof.
  intros Hm Hk v. unfold bind.
  destruct (Hm v) as [c Hc].
  destruct (m v) as [[a|e|] v1]; simpl in Hc; subst v1; simpl.
  - destruct (Hk a (set_canvas c v)) as [c' Hc'].
    exists c'. now rewrite Hc'.
  - now exists c.
  - now exists c.
Qed.

Create HintDb paints.
#[local] Hint Resolve paints_ret paints_get paints_lift paints_deref
  paints_draw paints_set_canvas : paints.

Ltac paint :=
  repeat first
    [ apply paints_bind; [|intros ?]
    | solve [auto with paints]
    | match goal with
      | |- paints (if ?b then _ else _) => destruct b
      | |- paints (match ?x with _ => _ end) => destruct x
      end ].

Lemma paints_renderScale fuel p : paints (renderScale fuel p).
Proof. unfold renderScale. paint. Qed.

Lemma paints_render fuel p : paints (render fuel p).
Proof. unfold render. paint. Qed.

(** A handler that ends in [render]: the fields are those left by what
    came before. *)
Lemma then_render fuel p (m : M t unit) v :
  fst (m v) = Ok tt ->
  exists c, snd (bind m (fun _ => render fuel p) v) = set_canvas c (snd (m v)).
Proof.
  intros Hok. unfold bind. destruct (m v) as [o v1]. simpl in *. subst o.
  apply paints_render.
Qed.

(** *** What each handler leaves in the fields *)

Ltac handler fuel p :=
  unfold bind, modify, get, gets, ret; cbv beta iota delta [negb];
  match goal with
  | |- context [render fuel p ?v'] =>
      let c := fresh "c" in
      let Hc := fresh "Hc" in
      destruct (paints_render fuel p v') as [c Hc];
      exists c; rewrite Hc; reflexivity
  end.

Lemma mousedown_state fuel p x v :
  exists c,
    snd (mousedown fuel p x v)
    = set_canvas c
        (set_selection (mkSelection (sampleIndex v x) (sampleIndex v x))
           (set_dragging true v)).
Proof. unfold mousedown. handler fuel p. Qed.

Lemma mousemove_idle fuel p x v :
  dragging v = false -> mousemove fuel p x v = (Ok tt, v).
Proof.
  intros Hd. unfold mousemove, bind, get. cbv beta iota.
  now rewrite Hd.
Qed.

Lemma mousemove_state fuel p x v :
  dragging v = true ->
  exists c,
    snd (mousemove fuel p x v)
    = set_canvas c
        (if Qgtb (sampleIndex v x) (sel_start (selection v))
         then set_sel_end (sampleIndex v x) v
         else set_sel_start (sampleIndex v x) v).
Proof.
  intros Hd. unfold mousemove, bind at 1, get. cbv beta iota.
  rewrite Hd. cbv beta iota. fold (sampleIndex v x).
  destruct (Qgtb (sampleIndex v x) (sel_start (selection v)));
    handler fuel p.
Qed.

Lemma mouseup_state v :
  mouseup v
  = (Ok tt, set_emitted (emitted v ++ [selection v]) (set_dragging false v)).
Proof. reflexivity. Qed.

Lemma zoom_state fuel p delta v :
  exists c,
    snd (zoom fuel p delta v)
    = set_canvas c
        (let v1 :=
           set_scale
             (clamp (scale v * Qpower (101 # 100) delta) (1 # 256) 16) v in
         if recording p then v1
         else
           set_end
             (clamp (inject_Z (Qfloor (end_ v - (start v1 - start v) / 2)))
                (Qmin (cv_width / scale v) (bufLen v)) (bufLen v))
             v1).
Proof.
  unfold zoom. destruct (recording p); cbv [negb]; handler fuel p.
Qed.

Lemma skip_end fuel p delta v :
  end_ (snd (skip fuel p delta v))
  = clamp (inject_Z (Qfloor (end_ v + delta / scale v)))
      (Qmin (cv_width / scale v) (bufLen v)) (bufLen v).
Proof.
  unfold skip, bind, modify, get, gets, ret. cbv beta iota.
  match goal with |- context [if ?b then _ else _] => destruct b end.
  - match goal with
    | |- context [render fuel p ?v'] =>
        destruct (paints_render fuel p v') as [c Hc]; rewrite Hc
    end. reflexivity.
  - reflexivity.
Qed.

(** X21.  [skip] keeps [end] at or above [minEnd] taken at the scale
    in force, so that a full frame shows, and leaves the scale and
    [bufLen] alone. *)
Lemma skip_keeps_full_frame fuel p delta v :
  let v' := snd (skip fuel p delta v) in
  scale v' = scale v /\ bufLen v' = bufLen v /\
  Qmin (cv_width / scale v') (bufLen v') <= end_ v'.
Proof.
  intros v'.
  assert (Hframe : scale v' = scale v /\ bufLen v' = bufLen v).
  { subst v'. unfold skip, bind, modify, get, gets, ret. cbv beta iota.
    match goal with |- context [if ?b then _ else _] => destruct b end.
    - match goal with
      | |- context [render fuel p ?s] =>
          destruct (paints_render fuel p s) as [c Hc]; rewrite Hc
      end. split; reflexivity.
    - split; reflexivity. }
  destruct Hframe as [Hs Hb]. repeat split; try assumption.
  rewrite Hs, Hb. subst v'. rewrite skip_end.
  unfold clamp. apply Q.le_max_l.
Qed.

Lemma update_empty_state fuel p bufs v :
  bufs = None \/ bufs = Some [] ->
  exists c,
    snd (update fuel p bufs v)
    = set_canvas c
        (set_end 0 (set_bufLen 0 (set_sel_end 0 (set_sel_start 0 v)))).
Proof.
  intros [-> | ->]; unfold update; handler fuel p.
Qed.

Lemma update_state fuel p (b0 : Float32Array)
    (bs : list Float32Array) v :
  let newBufLen :=
    inject_Z (Z.of_nat (length (b0 :: bs)) * Z.of_nat (length b0)) in
  exists c,
    snd (update fuel p (Some (b0 :: bs)) v)
    = set_canvas c
        (set_bufLen newBufLen
           (if Qltb (Qabs (end_ v - bufLen v)) (64 / scale v)
               || Qgtb (bufLen v) newBufLen
            then set_end newBufLen v
            else v)).
Proof.
  intros newBufLen. subst newBufLen.
  unfold update, bind at 1, get. cbv beta iota.
  match goal with
  | |- context [if ?b then modify _ else _] => destruct b
  end; handler fuel p.
Qed.

(** *** Clamping *)

Lemma clamp_bounds x lo hi : lo <= hi -> lo <= clamp x lo hi <= hi.
Proof.
  intros Hle. unfold clamp. split.
  - apply Q.le_max_l.
  - apply Q.max_lub; [assumption | apply Q.le_min_l].
Qed.

Lemma start_bounds v :
  0 < scale v -> 0 <= end_ v -> 0 <= start v <= end_ v.
Proof.
  intros Hscale Hend. unfold start. split.
  - apply Q.le_max_l.
  - apply Q.max_lub; [assumption|].
    pose proof (Qle_ceiling (cv_width / scale v)) as Hc.
    assert (Hw : 0 <= cv_width / scale v).
    { apply Qle_shift_div_l; [assumption|]. unfold cv_width. lra. }
    lra.
Qed.

Lemma zoom_scale fuel p delta v :
  let v' := snd (zoom fuel p delta v) in
  scale v' = clamp (scale v * Qpower (101 # 100) delta) (1 # 256) 16 /\
  1 # 256 <= scale v' <= 16.
Proof.
  intros v'. subst v'. destruct (zoom_state fuel p delta v) as [c Hc].
  rewrite Hc. split.
  - destruct (recording p); reflexivity.
  - replace (scale _)
      with (clamp (scale v * Qpower (101 # 100) delta) (1 # 256) 16)
      by (destruct (recording p); reflexivity).
    apply clamp_bounds. lra.
Qed.

(** After a zoom outside of a recording the window lies within the
    data: [0 <= start <= end <= bufLen]. *)
Lemma zoom_window fuel p delta v :
  recording p = false -> 0 <= bufLen v -> 0 < scale v ->
  let v' := snd (zoom fuel p delta v) in
  0 <= start v' /\ start v' <= end_ v' /\ end_ v' <= bufLen v'.
Proof.
  intros Hrec Hlen Hold v'.
  destruct (zoom_scale fuel p delta v) as [_ [Hlo _]]. fold v' in Hlo.
  assert (Hscale : 0 < scale v') by lra.
  assert (Hw : 0 <= cv_width / scale v).
  { apply Qle_shift_div_l; [assumption|]. unfold cv_width. lra. }
  assert (Hend : 0 <= end_ v' /\ end_ v' <= bufLen v').
  { subst v'. destruct (zoom_state fuel p delta v) as [c Hc].
    rewrite Hc, Hrec. cbn.
    pose proof (clamp_bounds
      (inject_Z (Qfloor (end_ v
         - (start (set_scale
              (clamp (scale v * Qpower (101 # 100) delta) (1 # 256) 16) v)
            - start v) / 2)))
      (Qmin (cv_width / scale v) (bufLen v)) (bufLen v)
      (Q.le_min_r _ _)) as [Hmin Hmax].
    split; [|exact Hmax].
    apply Qle_trans with (2 := Hmin). now apply Q.min_glb. }
  destruct Hend as [H0 Hmax].
  destruct (start_bounds v' Hscale H0). tauto.
Qed.


(** *** The claims on selection, zoom and growth *)

(** C5, as stated, fails.  With the pointer mapped to samples 500, 800
    and then 100 (scale 1/2, offsets 250, 400 and 50): the release emits
    [{500, 800}]; a move after the release is ignored, and a second
    release emits [{500, 800}] again; a move to 100 before the release
    gives [{100, 800}].  In neither order is the selection
    [{100, 500}]. *)
Lemma drag_back_is_not_anchored :
  let p := mkProps 44100 (Some [[0; 0]]) false in
  let v := set_scale (1 # 2) (set_bufLen 1000 (set_end 1000 data)) in
  let down := snd (mousedown 10 p 250 v) in
  let moved := snd (mousemove 10 p 400 down) in
  let up := snd (mouseup moved) in
  let late := snd (mousemove 10 p 50 up) in
  let early := snd (mousemove 10 p 50 moved) in
  (sampleIndex v 250 = 500 /\ sampleIndex v 400 = 800
   /\ sampleIndex v 50 = 100) /\
  emitted up = [mkSelection 500 800] /\
  selection late = mkSelection 500 800 /\
  emitted (snd (mouseup late)) = [mkSelection 500 800; mkSelection 500 800] /\
  emitted (snd (mouseup early)) = [mkSelection 100 800] /\
  mkSelection 100 800 <> mkSelection 100 500 /\
  mkSelection 500 800 <> mkSelection 100 500.
Proof.
  vm_compute. repeat split; discriminate.
Qed.

(** C5, amended.  At a positive scale, press at sample [i0], move to
    [i1 > i0], release: the selection is [{i0, i1}] and that is what is
    emitted.  A move after the release changes nothing.  A move to
    [i2 <= i0] before the release moves [start] to [i2] and leaves [end]
    at [i1]: start and end never trade places, the press position is
    not kept. *)
Theorem drag_selection fuel p v x0 x1 x2 :
  let i0 := sampleIndex v x0 in
  let i1 := sampleIndex v x1 in
  let i2 := sampleIndex v x2 in
  0 < scale v -> i0 < i1 -> i2 <= i0 ->
  let down := snd (mousedown fuel p x0 v) in
  let moved := snd (mousemove fuel p x1 down) in
  let up := snd (mouseup moved) in
  selection up = mkSelection i0 i1 /\
  emitted up = emitted v ++ [mkSelection i0 i1] /\
  mousemove fuel p x2 up = (Ok tt, up) /\
  selection (snd (mousemove fuel p x2 moved)) = mkSelection i2 i1.
Proof.
  intros i0 i1 i2 _ H01 H20 down moved up.
  destruct (mousedown_state fuel p x0 v) as [c0 Hdown]. fold i0 in Hdown.
  fold down in Hdown.
  assert (Hmoved : exists c1,
            moved = set_canvas c1
                      (set_selection (mkSelection i0 i1)
                         (set_dragging true v))).
  { destruct (mousemove_state fuel p x1 down) as [c1 H1].
    { now rewrite Hdown. }
    fold moved in H1. exists c1. rewrite H1, Hdown.
    change (sampleIndex (set_canvas c0
              (set_selection (mkSelection i0 i0) (set_dragging true v))) x1)
      with i1.
    cbn [selection sel_start set_canvas set_selection set_dragging].
    assert (Hgt : Qgtb i1 i0 = true) by now apply Qltb_lt.
    rewrite Hgt. reflexivity. }
  destruct Hmoved as [c1 Hmoved].
  assert (Hup : up = set_emitted (emitted v ++ [mkSelection i0 i1])
                        (set_dragging false moved)).
  { unfold up. rewrite mouseup_state, Hmoved. reflexivity. }
  split; [rewrite Hup, Hmoved; reflexivity|].
  split; [rewrite Hup; reflexivity|].
  split.
  - apply mousemove_idle. rewrite Hup. reflexivity.
  - destruct (mousemove_state fuel p x2 moved) as [c2 H2].
    { now rewrite Hmoved. }
    rewrite H2, Hmoved.
    change (sampleIndex (set_canvas c1
              (set_selection (mkSelection i0 i1) (set_dragging true v))) x2)
      with i2.
    cbn [selection sel_start set_canvas set_selection set_dragging].
    assert (Hle : Qgtb i2 i0 = false) by now apply Qltb_ge.
    rewrite Hle. reflexivity.
Qed.

Lemma drag_selection_witness :
  let p := mkProps 44100 (Some [[0; 0]]) false in
  let v := set_scale (1 # 2) (set_bufLen 1000 (set_end 1000 data)) in
  let down := snd (mousedown 10 p 250 v) in
  let moved := snd (mousemove 10 p 400 down) in
  let up := snd (mouseup moved) in
  selection up = mkSelection 500 800 /\
  emitted up = [mkSelection 500 800] /\
  mousemove 10 p 50 up = (Ok tt, up) /\
  selection (snd (mousemove 10 p 50 moved)) = mkSelection 100 800.
Proof.
  intros p v.
  refine (drag_selection 10 p v 250 400 50 _ _ _).
  - reflexivity.
  - vm_compute. reflexivity.
  - vm_compute. discriminate.
Defined.

(** C6 (the code departs from the claim).  [zoom] bounds the new [end]
    from below by [minEnd] taken at the scale before the zoom.  Zooming
    out by one step from scale 1 with [end = 512] over 100000 samples
    leaves [end] at 512, where the claim, with [minEnd] at the new scale
    100/101, gives 517.12; the window is then narrower than the
    canvas. *)
Theorem zoom_floor_from_old_scale fuel :
  let p := mkProps 44100 (Some [[0; 0]]) false in
  let v := set_scale 1 (set_bufLen 100000 (set_end 512 data)) in
  let v' := snd (zoom fuel p (-1) v) in
  scale v' = 100 # 101 /\
  end_ v' = 512 /\
  claimedZoomEnd v (-1) = 51712 # 100 /\
  ~ end_ v' == claimedZoomEnd v (-1) /\
  end_ v' < Qmin (cv_width / scale v') (bufLen v').
Proof.
  intros p v v'. subst v'.
  destruct (zoom_state fuel p (-1) v) as [c Hc]. rewrite Hc.
  repeat split.
  - vm_compute. intros H. discriminate H.
Qed.

(** C7, as stated, fails: at the initial scale 0.003906252 the
    auto-follow threshold [64 / scale] is about 16384 samples, so a
    viewport at [end = 200] over 1000 samples is snapped to 1050 when a
    block of 50 arrives. *)
Lemma update_follows_from_far_back :
  let blocks := repeat (repeat 0 50%nat) 21 in
  let p := mkProps 44100 (Some blocks) true in
  let v := set_bufLen 1000 (set_end 200 data) in
  let v' := snd (update 10 p (Some blocks) v) in
  bufLen v' = 1050 /\ end_ v' = 1050 /\ ~ end_ v' == 200.
Proof.
  vm_compute. repeat split. intros H. discriminate H.
Qed.

(** C7, amended.  On growth to [newBufLen = buffers.length *
    buffers[0].length], [bufLen] becomes [newBufLen]; [end] is snapped
    to [newBufLen] when it was less than [64 / scale] samples (64 pixels
    of the canvas) away from the previous [bufLen] or when the data
    shrank, and is left alone otherwise.  From [bufLen = 1000] to 1050:
    [end = 1000] goes to 1050 at any positive scale; [end = 200] stays
    200 provided [64 / scale <= 800], that is [scale >= 2/25]. *)
Theorem update_follows_live_edge fuel p (b0 : Float32Array)
    (bs : list Float32Array) v :
  let newBufLen :=
    inject_Z (Z.of_nat (length (b0 :: bs)) * Z.of_nat (length b0)) in
  let v' := snd (update fuel p (Some (b0 :: bs)) v) in
  0 < scale v ->
  bufLen v' = newBufLen /\
  (Qabs (end_ v - bufLen v) < 64 / scale v \/ newBufLen < bufLen v ->
   end_ v' = newBufLen) /\
  (64 / scale v <= Qabs (end_ v - bufLen v) -> bufLen v <= newBufLen ->
   end_ v' = end_ v) /\
  (bufLen v == 1000 -> newBufLen == 1050 ->
   end_ v == 1000 -> end_ v' == 1050) /\
  (bufLen v == 1000 -> newBufLen == 1050 -> 2 # 25 <= scale v ->
   end_ v == 200 -> end_ v' == 200).
Proof.
  intros newBufLen v' Hscale.
  destruct (update_state fuel p b0 bs v) as [c Hc].
  fold newBufLen in Hc. fold v' in Hc.
  assert (Hsnap : Qabs (end_ v - bufLen v) < 64 / scale v
                  \/ newBufLen < bufLen v -> end_ v' = newBufLen).
  { intros Hnear. rewrite Hc.
    assert (Hcond : Qltb (Qabs (end_ v - bufLen v)) (64 / scale v)
                    || Qgtb (bufLen v) newBufLen = true).
    { apply orb_true_iff. destruct Hnear as [H | H];
        [left | right]; now apply Qltb_lt. }
    rewrite Hcond. reflexivity. }
  assert (Hstay : 64 / scale v <= Qabs (end_ v - bufLen v) ->
                  bufLen v <= newBufLen -> end_ v' = end_ v).
  { intros Hfar Hgrow. rewrite Hc.
    assert (Hcond : Qltb (Qabs (end_ v - bufLen v)) (64 / scale v)
                    || Qgtb (bufLen v) newBufLen = false).
    { apply orb_false_iff. split; now apply Qltb_ge. }
    rewrite Hcond. reflexivity. }
  split; [rewrite Hc; reflexivity|].
  split; [exact Hsnap|]. split; [exact Hstay|]. split.
  - intros Hlen Hnew Hend. rewrite Hsnap; [exact Hnew|].
    left. assert (E : end_ v - bufLen v == 0) by (rewrite Hlen, Hend; lra).
    rewrite (Qabs_wd _ _ E). simpl.
    apply Qlt_shift_div_l; [assumption | lra].
  - intros Hlen Hnew Hfar Hend. rewrite Hstay; [exact Hend| |lra].
    assert (E : end_ v - bufLen v == -(800)) by (rewrite Hlen, Hend; lra).
    rewrite (Qabs_wd _ _ E). change (Qabs (- (800))) with 800.
    apply Qle_shift_div_r; lra.
Qed.

Lemma update_follows_live_edge_witness :
  let blocks := repeat (repeat 0 50%nat) 21 in
  let p := mkProps 44100 (Some blocks) true in
  let atEdge := set_scale 1 (set_bufLen 1000 (set_end 1000 data)) in
  let back := set_scale 1 (set_bufLen 1000 (set_end 200 data)) in
  end_ (snd (update 10 p (Some blocks) atEdge)) == 1050 /\
  end_ (snd (update 10 p (Some blocks) back)) == 200.
Proof.
  intros blocks p atEdge back. split.
  - destruct (update_follows_live_edge 10 p (repeat 0 50%nat)
                (repeat (repeat 0 50%nat) 20) atEdge)
      as (_ & _ & _ & H & _); [reflexivity|].
    apply H; vm_compute; reflexivity.
  - destruct (update_follows_live_edge 10 p (repeat 0 50%nat)
                (repeat (repeat 0 50%nat) 20) back)
      as (_ & _ & _ & _ & H); [reflexivity|].
    apply H; vm_compute; try reflexivity. discriminate.
Defined.

(** C10.  An update with an absent or empty block list resets the
    selection to [{0, 0}], [bufLen] to 0 and [end] to 0, and leaves
    [scale], [lockWave], the slider value, the drag flag and the emitted
    events as they were. *)
Theorem update_empty_resets fuel p bufs v :
  bufs = None \/ bufs = Some [] ->
  let v' := snd (update fuel p bufs v) in
  selection v' = mkSelection 0 0 /\ bufLen v' = 0 /\ end_ v' = 0 /\
  scale v' = scale v /\ lockWave v' = lockWave v /\
  timeSliderValue v' = timeSliderValue v /\ dragging v' = dragging v /\
  emitted v' = emitted v.
Proof.
  intros Hempty v'. subst v'.
  destruct (update_empty_state fuel p bufs v Hempty) as [c Hc].
  rewrite Hc. repeat split.
Qed.

Lemma update_empty_resets_witness :
  let p := mkProps 44100 (Some []) false in
  let v := set_selection (mkSelection 500 800)
             (set_scale 1 (set_bufLen 1000 (set_end 1000 data))) in
  let v' := snd (update 10 p (Some []) v) in
  selection v' = mkSelection 0 0 /\ bufLen v' = 0 /\ end_ v' = 0 /\
  scale v' = 1 /\ lockWave v' = true /\
  timeSliderValue v' = 50 /\ dragging v' = false /\
  emitted v' = [].
Proof.
  intros p v.
  refine (update_empty_resets 10 p (Some []) v _).
  right. reflexivity.
Defined.

(** *** The ruler *)

Lemma while_false {A} fuel (cond : A -> bool) body x :
  cond x = false -> while fuel cond body x = Ok x.
Proof. intros H. destruct fuel; simpl; now rewrite H. Qed.

Lemma while_true {A} fuel (cond : A -> bool) body x :
  cond x = true ->
  while (S fuel) cond body x = while fuel cond body (body x).
Proof. intros H. simpl. now rewrite H. Qed.

Lemma pow10_succ (z : Z) : Qpower 10 (z + 1) == Qpower 10 z * 10.
Proof. rewrite Qpower_plus by (intros H; discriminate H). reflexivity. Qed.

Lemma pow10_pred (z : Z) : Qpower 10 (z - 1) == Qpower 10 z / 10.
Proof.
  unfold Z.sub. rewrite Qpower_plus by (intros H; discriminate H).
  reflexivity.
Qed.

Lemma pow10_pos (z : Z) : 0 < Qpower 10 z.
Proof. apply Qpower_0_lt. reflexivity. Qed.

Lemma tenths_pow k mul : tenths k mul == mul * Qpower 10 (- Z.of_nat k).
Proof.
  revert mul. induction k as [|k IH]; intros mul.
  - simpl. lra.
  - cbn [tenths]. rewrite IH.
    replace (- Z.of_nat (S k))%Z with (- Z.of_nat k - 1)%Z by lia.
    rewrite pow10_pred. field.
Qed.

(** The loop [while (pps * mul > cv.width / 2) mul /= 10] from [mul]:
    it stops after some [k <= n] rounds when [pps * mul] is at most
    [cv.width / 2 + n]. *)
Lemma rulerLoop_stops pps n :
  forall mul,
    pps * mul <= cv_width / 2 + inject_Z (Z.of_nat n) ->
    exists k, (k <= n)%nat /\
      (forall fuel, (k <= fuel)%nat ->
         while fuel (fun mul => Qgtb (pps * mul) (cv_width / 2))
           (fun mul => mul / 10) mul = Ok (tenths k mul)) /\
      pps * tenths k mul <= cv_width / 2 /\
      (forall j, (j < k)%nat -> cv_width / 2 < pps * tenths j mul).
Proof.
  induction n as [|n IH]; intros mul Hbound.
  - exists 0%nat. split; [lia|].
    change (inject_Z (Z.of_nat 0)) with 0 in Hbound.
    assert (Hle : pps * mul <= cv_width / 2) by lra.
    repeat split.
    + intros fuel _. apply while_false. now apply Qltb_ge.
    + exact Hle.
    + intros j Hj. lia.
  - destruct (Qgtb (pps * mul) (cv_width / 2)) eqn:Hcond.
    + apply Qltb_lt in Hcond.
      destruct (IH (mul / 10)) as (k & Hk & Hrun & Hle & Hgt).
      { rewrite Nat2Z.inj_succ, <- Z.add_1_r, inject_Z_plus in Hbound.
        change (inject_Z 1) with 1 in Hbound.
        assert (Hn : 0 <= inject_Z (Z.of_nat n)).
        { unfold Qle. simpl. lia. }
        unfold cv_width in *.
        assert (E : pps * (mul / 10) == pps * mul / 10) by field.
        rewrite E. apply Qle_shift_div_r; [lra|].
        assert (Hhalf : 512 / 2 == 256) by reflexivity.
        rewrite Hhalf in *. lra. }
      exists (S k). split; [lia|]. repeat split.
      * intros fuel Hfuel. destruct fuel as [|fuel]; [lia|].
        rewrite while_true by now apply Qltb_lt.
        apply Hrun. lia.
      * exact Hle.
      * intros j Hj. destruct j as [|j]; [exact Hcond|].
        apply Hgt. lia.
    + apply Qltb_ge in Hcond. exists 0%nat. split; [lia|]. repeat split.
      * intros fuel _. apply while_false. now apply Qltb_ge.
      * exact Hcond.
      * intros j Hj. lia.
Qed.

(** The loop [while (mul < 1) mul *= 1000] stops within [n] rounds when
    [mul * 10^n] is at least 1. *)
Lemma labelLoop_stops n :
  forall mul fuel,
    (n <= fuel)%nat -> 1 <= mul * Qpower 10 (Z.of_nat n) ->
    exists m,
      while fuel (fun mul => Qltb mul 1) (fun mul => mul * 1000) mul = Ok m.
Proof.
  induction n as [|n IH]; intros mul fuel Hfuel Hbig.
  - exists mul. apply while_false. apply Qltb_ge. simpl in Hbig. lra.
  - destruct (Qltb mul 1) eqn:Hcond.
    + destruct fuel as [|fuel]; [lia|].
      rewrite while_true by assumption.
      apply IH; [lia|].
      rewrite Nat2Z.inj_succ, <- Z.add_1_r, pow10_succ in Hbig.
      pose proof (pow10_pos (Z.of_nat n)) as Hpos.
      nra.
    + exists mul. now apply while_false.
Qed.

Lemma renderScale_draws fuel p v mul label :
  rulerMul fuel (sampleRate p * scale v) = Ok mul ->
  while fuel (fun mul => Qltb mul 1) (fun mul => mul * 1000) mul = Ok label ->
  exists unit,
    renderScale fuel p v
    = (Ok tt,
       set_canvas
         ((canvas v
           ++ [FillRect (cv_width / 2 - sampleRate p * scale v * mul / 2)
                 ((4 # 10) * cv_height) (sampleRate p * scale v * mul) 2])
          ++ [FillText label unit (cv_width / 2) ((38 # 100) * cv_height)])
         v).
Proof.
  intros Hmul Hlabel.
  exists (if Qgeb mul 1 then Seconds
          else if Qgeb mul (1 # 1000) then Millis else Micros).
  unfold renderScale, bind, get, lift, draw, modify. cbv beta iota.
  rewrite Hmul. cbv beta iota. rewrite Hlabel. reflexivity.
Qed.

(** C8, as stated, fails: at a sample rate of 3000 Hz and scale 1/256
    one second takes 11.71875 pixels; the loop leaves [mul] at 1, while
    ten seconds (117.1875 pixels) still fit half of the canvas. *)
Lemma ruler_stays_at_one_second :
  let p := mkProps 3000 None false in
  let v := set_scale (1 # 256) data in
  let pps := sampleRate p * scale v in
  rulerMul 10 pps = Ok 1 /\
  canvas (snd (renderScale 10 p v))
  = [FillRect (cv_width / 2 - pps * 1 / 2) ((4 # 10) * cv_height) (pps * 1) 2;
     FillText 1 Seconds (cv_width / 2) ((38 # 100) * cv_height)] /\
  ~ largestPowerOfTen pps 1.
Proof.
  split; [reflexivity|]. split; [reflexivity|].
  intros (_ & _ & Hmax).
  specialize (Hmax 1%Z). vm_compute in Hmax.
  apply Hmax; [discriminate | reflexivity].
Qed.

(** At 44100 Hz and scale 1 the loop runs three rounds: one millisecond,
    44.1 pixels. *)
Example ruler_at_44100 :
  rulerMul 10 (44100 * 1) = Ok (tenths 3 1) /\
  tenths 3 1 == 1 # 1000 /\
  canvas (snd (renderScale 10 (mkProps 44100 None false)
                 (set_scale 1 data)))
  = [FillRect (cv_width / 2 - 44100 * 1 * tenths 3 1 / 2)
       ((4 # 10) * cv_height) (44100 * 1 * tenths 3 1) 2;
     FillText (tenths 3 1 * 1000) Millis (cv_width / 2)
       ((38 # 100) * cv_height)].
Proof. repeat split. Qed.

(** C8, amended.  The loop starts at 1 and only divides: [mul] is
    [10^-k] for the least [k >= 0] at which the bar [pps * mul] fits
    half of the canvas, that is the largest power of ten not above 1
    that fits; it is the largest of all powers of ten when ten seconds
    do not fit ([pps * 10 > cv.width / 2]).  With fuel for [k] rounds
    [renderScale] returns, having drawn a bar of length [pps * mul]. *)
Theorem ruler_largest_power_up_to_one p v :
  let pps := sampleRate p * scale v in
  exists k : nat,
    let mul := tenths k 1 in
    mul == Qpower 10 (- Z.of_nat k) /\
    pps * mul <= cv_width / 2 /\
    (forall j, (j < k)%nat ->
       cv_width / 2 < pps * Qpower 10 (- Z.of_nat j)) /\
    (cv_width / 2 < pps * 10 -> largestPowerOfTen pps mul) /\
    forall fuel, (k <= fuel)%nat ->
      rulerMul fuel pps = Ok mul /\
      exists label unit,
        renderScale fuel p v
        = (Ok tt,
           set_canvas
             ((canvas v
               ++ [FillRect (cv_width / 2 - pps * mul / 2)
                     ((4 # 10) * cv_height) (pps * mul) 2])
              ++ [FillText label unit (cv_width / 2)
                    ((38 # 100) * cv_height)])
             v).
Proof.
  intros pps.
  destruct (rulerLoop_stops pps (Z.to_nat (Qceiling (pps * 1))) 1)
    as (k & _ & Hrun & Hfit & Hgt).
  { pose proof (Qle_ceiling (pps * 1)) as Hc.
    apply Qle_trans with (1 := Hc).
    assert (Hz : inject_Z (Qceiling (pps * 1))
                 <= inject_Z (Z.of_nat (Z.to_nat (Qceiling (pps * 1))))).
    { rewrite <- Zle_Qle. lia. }
    unfold cv_width. assert (Hhalf : 512 / 2 == 256) by reflexivity.
    rewrite Hhalf. lra. }
  assert (Hpow : forall j, tenths j 1 == Qpower 10 (- Z.of_nat j)).
  { intros j. rewrite tenths_pow. lra. }
  exists k. cbv zeta.
  split; [apply Hpow|]. split; [exact Hfit|]. split.
  { intros j Hj. rewrite <- Hpow. now apply Hgt. }
  split.
  { intros Hten. split; [exists (- Z.of_nat k)%Z; apply Hpow|].
    split; [exact Hfit|].
    intros z Hz. rewrite Hpow.
    apply Qpower_le_compat_l; [|lra].
    destruct (Z_lt_le_dec (- Z.of_nat k) z) as [Habove|]; [exfalso|assumption].
    assert (Hpps : 0 < pps).
    { unfold cv_width in Hten.
      assert (Hhalf : 512 / 2 == 256) by reflexivity.
      rewrite Hhalf in Hten. lra. }
    destruct (Z_lt_le_dec 0 z) as [Hpos | Hneg].
    - assert (H10 : 10 <= Qpower 10 z).
      { change 10 with (Qpower 10 1) at 1.
        apply Qpower_le_compat_l; [lia | lra]. }
      assert (pps * 10 <= pps * Qpower 10 z).
      { apply Qmult_le_l; assumption. }
      lra.
    - specialize (Hgt (Z.to_nat (- z))).
      rewrite Hpow in Hgt.
      replace (- Z.of_nat (Z.to_nat (- z)))%Z with z in Hgt by lia.
      assert (cv_width / 2 < pps * Qpower 10 z) by (apply Hgt; lia).
      lra. }
  intros fuel Hfuel.
  pose proof (Hrun fuel Hfuel) as Hmul. split; [exact Hmul|].
  destruct (labelLoop_stops k (tenths k 1) fuel Hfuel) as [label Hlabel].
  { rewrite Hpow, <- Qpower_plus by (intros H; discriminate H).
    replace (- Z.of_nat k + Z.of_nat k)%Z with 0%Z by lia.
    simpl. lra. }
  destruct (renderScale_draws fuel p v (tenths k 1) label Hmul Hlabel)
    as [unit Hdraw].
  exists label, unit. exact Hdraw.
Qed.

(** *** The sample lookup *)

Lemma totalSamples_uniform L bs :
  uniform L bs -> totalSamples bs = (Z.of_nat (length bs) * Z.of_nat L)%Z.
Proof.
  intros Hu. unfold totalSamples.
  rewrite (StoreFacts.uniform_sum_length L bs Hu). lia.
Qed.

(** X22.  For blocks of one length the [bufLen] that [update] stores
    is the total length of the store. *)
Lemma update_bufLen_total fuel p L (b0 : Float32Array)
    (bs : list Float32Array) v :
  uniform L (b0 :: bs) ->
  bufLen (snd (update fuel p (Some (b0 :: bs)) v))
  = inject_Z (totalSamples (b0 :: bs)).
Proof.
  intros Hu. destruct (update_state fuel p b0 bs v) as [c Hc].
  rewrite Hc. cbn [bufLen set_canvas set_bufLen].
  rewrite (totalSamples_uniform L _ Hu).
  assert (Hb0 : length b0 = L) by now inversion Hu.
  now rewrite Hb0.
Qed.

(** C9.  With at least one block and all blocks of the length of the
    first, [getData(i)] is 0 for every index outside of the data:
    negative, or at or past the total length. *)
Theorem getData_outside L bufs i :
  bufs <> [] -> uniform L bufs ->
  i < 0 \/ inject_Z (totalSamples bufs) <= i ->
  getData bufs i = JSNumber 0.
Proof.
  intros Hne Hu Hout.
  destruct bufs as [|b0 rest]; [congruence|].
  assert (Hb0 : length b0 = L) by now inversion Hu.
  rewrite (totalSamples_uniform L _ Hu) in Hout.
  unfold getData. cbn [hd]. rewrite Hb0.
  destruct (Qeq_bool (inject_Z (Z.of_nat L)) 0) eqn:Hzero; [reflexivity|].
  assert (HL : 0 < inject_Z (Z.of_nat L)).
  { apply Qeq_bool_neq in Hzero.
    assert (H0 : 0 <= inject_Z (Z.of_nat L)) by (unfold Qle; simpl; lia).
    apply Qle_lteq in H0. destruct H0 as [H0 | H0]; [assumption|].
    exfalso. apply Hzero. now symmetry. }
  destruct Hout as [Hneg | Hpast].
  - assert (Hq : i / inject_Z (Z.of_nat L) < 0).
    { apply Qlt_shift_div_r; [assumption | lra]. }
    assert (Hfl : (Qfloor (i / inject_Z (Z.of_nat L)) < 0)%Z).
    { rewrite Zlt_Qlt. apply Qle_lt_trans with (2 := Hq). apply Qfloor_le. }
    destruct (Z.leb_spec 0 (Qfloor (i / inject_Z (Z.of_nat L))));
      [lia | reflexivity].
  - assert (Hq : inject_Z (Z.of_nat (length (b0 :: rest)))
                 <= i / inject_Z (Z.of_nat L)).
    { apply Qle_shift_div_l; [assumption|].
      now rewrite <- inject_Z_mult. }
    assert (Hfl : (Z.of_nat (length (b0 :: rest))
                   <= Qfloor (i / inject_Z (Z.of_nat L)))%Z).
    { rewrite <- (Qfloor_Z (Z.of_nat (length (b0 :: rest)))).
      now apply Qfloor_resp_le. }
    destruct (Z.leb_spec 0 (Qfloor (i / inject_Z (Z.of_nat L))));
      [|reflexivity].
    assert (Hnone : nth_error (b0 :: rest)
                      (Z.to_nat (Qfloor (i / inject_Z (Z.of_nat L)))) = None).
    { apply nth_error_None. lia. }
    now rewrite Hnone.
Qed.

Lemma nth_error_concat_uniform L (bs : list Float32Array) :
  uniform L bs ->
  forall q r, (r < L)%nat ->
    nth_error (concat bs) (q * L + r)
    = match nth_error bs q with
      | Some c => nth_error c r
      | None => None
      end.
Proof.
  induction 1 as [|c bs Hc _ IH]; intros q r Hr.
  - now destruct q, r, L.
  - destruct q as [|q]; simpl.
    + apply nth_error_app1. lia.
    + rewrite nth_error_app2 by lia.
      replace (L + q * L + r - length c)%nat with (q * L + r)%nat by lia.
      now apply IH.
Qed.

Lemma Qfloor_quotient (a : Z) (b : positive) :
  Qfloor (inject_Z a / inject_Z (Z.pos b)) = (a / Z.pos b)%Z.
Proof.
  unfold Qdiv, Qinv, Qmult, inject_Z, Qfloor. simpl.
  now rewrite Z.mul_1_r.
Qed.

(** X20.  Inside of the data, at a whole index, [getData] is the
    sample at that position of the concatenated blocks. *)
Lemma getData_inside L bufs (z : Z) :
  uniform L bufs -> (0 <= z < totalSamples bufs)%Z ->
  exists x,
    nth_error (concat bufs) (Z.to_nat z) = Some x /\
    getData bufs (inject_Z z) = JSNumber x.
Proof.
  intros Hu Hz.
  rewrite (totalSamples_uniform L _ Hu) in Hz.
  destruct bufs as [|b0 rest]; [simpl in Hz; lia|].
  assert (Hb0 : length b0 = L) by now inversion Hu.
  assert (HL : (0 < Z.of_nat L)%Z) by nia.
  destruct (Z.of_nat L) as [|l|l] eqn:El; try lia.
  set (q := (z / Z.pos l)%Z). set (r := (z mod Z.pos l)%Z).
  assert (Hqr : (z = q * Z.pos l + r /\ 0 <= r < Z.pos l /\ 0 <= q)%Z).
  { subst q r. pose proof (Z.div_mod z (Z.pos l)).
    pose proof (Z.mod_pos_bound z (Z.pos l)).
    pose proof (Z.div_pos z (Z.pos l)). lia. }
  destruct Hqr as (Ez & Hr & Hq).
  assert (Hqn : (q < Z.of_nat (length (b0 :: rest)))%Z) by nia.
  assert (Hidx : Z.to_nat z = (Z.to_nat q * L + Z.to_nat r)%nat) by nia.
  pose proof (nth_error_concat_uniform L _ Hu (Z.to_nat q) (Z.to_nat r))
    as Hcat.
  rewrite <- Hidx in Hcat. specialize (Hcat ltac:(lia)).
  destruct (nth_error (b0 :: rest) (Z.to_nat q)) as [chunk|] eqn:Hchunk.
  2:{ apply nth_error_None in Hchunk. lia. }
  assert (Hlen : length chunk = L).
  { apply nth_error_In in Hchunk.
    unfold uniform in Hu. rewrite Forall_forall in Hu. now apply Hu. }
  destruct (nth_error chunk (Z.to_nat r)) as [x|] eqn:Hx.
  2:{ apply nth_error_None in Hx. lia. }
  exists x. split; [exact Hcat|].
  unfold getData. cbn [hd]. rewrite Hb0, El.
  change (Qeq_bool (inject_Z (Z.pos l)) 0) with false. cbv iota.
  rewrite Qfloor_quotient. fold q.
  destruct (Z.leb_spec 0 q) as [_|]; [|lia].
  rewrite Hchunk.
  assert (Hrem : Qrem (inject_Z z) (inject_Z (Z.pos l)) == inject_Z r).
  { unfold Qrem, Qtrunc.
    assert (Hnn : Qle_bool 0 (inject_Z z / inject_Z (Z.pos l)) = true).
    { apply Qle_bool_iff. apply Qle_shift_div_l; [reflexivity|].
      rewrite Qmult_0_l. unfold Qle. simpl. lia. }
    rewrite Hnn, Qfloor_quotient. fold q.
    rewrite Ez at 1. rewrite inject_Z_plus, inject_Z_mult. ring. }
  unfold typedGet, arrayIndex.
  rewrite (Qfloor_comp _ _ Hrem), Qfloor_Z.
  assert (Hint : Qeq_bool (Qrem (inject_Z z) (inject_Z (Z.pos l)))
                   (inject_Z r) = true) by now apply Qeq_bool_iff.
  rewrite Hint.
  destruct (Z.leb_spec 0 r) as [_|]; [|lia].
  cbn [andb]. now rewrite Hx.
Qed.

Lemma getData_outside_witness :
  getData [[1; 2]; [3; 4]] (-1) = JSNumber 0 /\
  getData [[1; 2]; [3; 4]] 4 = JSNumber 0.
Proof.
  split.
  - apply (getData_outside 2 [[1; 2]; [3; 4]] (-1)).
    + discriminate.
    + repeat constructor.
    + left. reflexivity.
  - apply (getData_outside 2 [[1; 2]; [3; 4]] 4).
    + discriminate.
    + repeat constructor.
    + right. vm_compute. discriminate.
Defined.

End ViewerFacts.

(** * More on the sample store *)

Module StoreMore.

Import AudioRecorder.
Import StoreFacts.

(** What [createClip] can do to a recorder without a clip: leave it as
    it is (no block, or a refused allocation) or set the clip. *)
Lemma createClip_cases r :
  snd (createClip r) = r \/
  exists c, createClip r = (Ok tt, set_clip (Some c) r).
Proof.
  unfold createClip, bind, gets, lift, modify, ret. cbv beta iota.
  destruct (buffers r) as [|b0 rest]; [now left|].
  destruct (createBuffer (sampleRate r)
              (Z.of_nat (length (b0 :: rest) * length b0))) as [c| |].
  - right. eexists. reflexivity.
  - now left.
  - now left.
Qed.

(** *** Computations that only read *)

Lemma readonly_ret {S A} (a : A) : readonly (@ret S A a).
Proof. intros s. reflexivity. Qed.

Lemma readonly_gets {S A} (f : S -> A) : readonly (gets f).
Proof. intros s. reflexivity. Qed.

Lemma readonly_lift {S A} (o : outcome A) : readonly (@lift S A o).
Proof. intros s. reflexivity. Qed.

Lemma readonly_throw {S A} e : readonly (@throw S A e).
Proof. intros s. reflexivity. Qed.

Lemma readonly_deref {S A} (o : option A) : readonly (@deref S A o).
Proof. intros s. now destruct o. Qed.

Lemma readonly_bind {S A B} (m : M S A) (k : A -> M S B) :
  readonly m -> (forall a, readonly (k a)) -> readonly (bind m k).
Proof.
  intros Hm Hk s. unfold bind. specialize (Hm s).
  destruct (m s) as [[a|e|] s1]; simpl in Hm; subst s1;
    [apply Hk | reflexivity | reflexivity].
Qed.

(** The state after [m ;; k] is the one after [m] when [k] only reads. *)
Lemma snd_bind_readonly {S A B} (m : M S A) (k : A -> M S B) s :
  (forall a, readonly (k a)) -> snd (bind m k s) = snd (m s).
Proof.
  intros Hk. unfold bind.
  destruct (m s) as [[a|e|] s1]; [apply Hk | reflexivity | reflexivity].
Qed.

Create HintDb readonly.
#[local] Hint Resolve readonly_ret readonly_gets readonly_lift
  readonly_throw readonly_deref : readonly.

Ltac reads :=
  repeat first
    [ apply readonly_bind; [|intros ?]
    | solve [auto with readonly]
    | match goal with
      | |- readonly (match ?x with _ => _ end) => destruct x
      end ].

(** The state that [getBuffer] leaves: it writes nothing itself, so the
    state is the one left by [createClip], when that was called. *)
Lemma getBuffer_state a b r :
  snd (getBuffer a b r)
  = match clip r with
    | Some _ => r
    | None => snd (createClip r)
    end.
Proof.
  unfold getBuffer. unfold bind at 1, gets at 1. cbv beta iota.
  rewrite snd_bind_readonly by (intros ?; reads).
  now destruct (clip r).
Qed.

(** *** Reads and the cache *)

(** X1.  A read changes nothing that a later read can see: after any
    [getBuffer], whatever its outcome, every [getBuffer] returns what it
    would have returned before, and leaves the same state. *)
Theorem getBuffer_cache_is_transparent r a b a' b' :
  getBuffer a' b' (snd (getBuffer a b r)) = getBuffer a' b' r.
Proof.
  rewrite getBuffer_state. destruct (clip r) as [c|] eqn:Hclip;
    [reflexivity|].
  destruct (createClip_cases r) as [Hsame | [c Hset]].
  - now rewrite Hsame.
  - rewrite Hset. cbn [snd]. symmetry.
    now apply (getBuffer_materialises r _ c).
Qed.

(** X2.  [getBuffer] never touches the recorded blocks, the sample
    rate, the processor or the recording flag, and never replaces a
    clip that is there, whether it returns or throws. *)
Theorem getBuffer_keeps_recording r a b :
  let r' := snd (getBuffer a b r) in
  buffers r' = buffers r /\ sampleRate r' = sampleRate r /\
  processor r' = processor r /\ recording r' = recording r /\
  (forall c, clip r = Some c -> clip r' = Some c).
Proof.
  intros r'. subst r'. rewrite getBuffer_state.
  destruct (clip r) as [c|] eqn:Hclip.
  - repeat split. intros c' Hc'. now rewrite <- Hc'.
  - destruct (createClip_cases r) as [Hsame | [c Hset]].
    + rewrite Hsame. repeat split. intros c Hc. congruence.
    + rewrite Hset. repeat split. intros c' Hc'. discriminate Hc'.
Qed.

(** *** Blocks of unequal lengths *)






(** *** A recording session *)




(** *** Reading past the end *)

Lemma skipn_repeat {A} (x : A) n k : skipn k (repeat x n) = repeat x (n - k).
Proof.
  revert k. induction n as [|n IH]; intros k.
  - now destruct k.
  - destruct k as [|k]; [reflexivity|]. simpl. apply IH.
Qed.

Lemma slice_from_nonneg (d : Float32Array) a b :
  0 <= a -> a <= b ->
  slice d a b = firstn (Z.to_nat (b - a)) (skipn (Z.to_nat a) d).
Proof.
  intros Ha Hab. unfold slice, relativeIndex.
  destruct (Z.ltb_spec a 0); [lia|].
  destruct (Z.ltb_spec b 0); [lia|].
  destruct (Z.le_gt_cases a (Z.of_nat (length d))) as [Hin | Hout].
  - rewrite (Z.min_l a) by lia.
    destruct (Z.le_gt_cases b (Z.of_nat (length d))) as [Hb | Hb].
    + now rewrite Z.min_l by lia.
    + rewrite Z.min_r by lia.
      rewrite !firstn_all2; try reflexivity; rewrite length_skipn; lia.
  - rewrite !skipn_all2 by lia. now rewrite !firstn_nil.
Qed.

(** X5.  With a clip at hand, [0 <= a < b] and fewer than 2^32 frames
    asked for ([b - a < maxFrames]), [getBuffer(a, b)] holds the samples
    of the clip from [a] up to [b] as far as the clip goes, followed by
    zeros up to [b - a] frames: what lies past the end of the clip
    reads as silence. *)
Theorem getBuffer_pads_with_silence r c a b :
  clip r = Some c -> 0 <= a -> a < b -> b - a < maxFrames ->
  let avail :=
    firstn (Z.to_nat (b - a)) (skipn (Z.to_nat a) (channelData c)) in
  fst (getBuffer (Some a) (Some b) r)
  = Ok (mkAudioBuffer (sampleRate r)
          (avail ++ repeat 0%Q (Z.to_nat (b - a) - length avail))).
Proof.
  intros Hc Ha Hab _ avail.
  rewrite (getBuffer_with_clip r c a b Hc Hab) by lia. cbn [fst].
  rewrite slice_from_nonneg by lia. fold avail.
  unfold copyToChannel. cbn [channelData bufSampleRate firstn app Nat.add].
  rewrite repeat_length, Nat.sub_0_r, skipn_repeat.
  rewrite firstn_all2; [reflexivity|].
  subst avail. rewrite length_firstn. lia.
Qed.

Lemma getBuffer_pads_with_silence_witness :
  fst (getBuffer (Some 1) (Some 5)
         (snd (getBuffer None None (appended 44100 [[1; 2]; [3; 4]]%Q))))
  = Ok (mkAudioBuffer 44100 [2; 3; 4; 0]%Q).
Proof.
  apply (getBuffer_pads_with_silence
           (snd (getBuffer None None (appended 44100 [[1; 2]; [3; 4]]%Q)))
           (mkAudioBuffer 44100 [1; 2; 3; 4]%Q) 1 5).
  - reflexivity.
  - lia.
  - lia.
  - reflexivity.
Defined.

End StoreMore.

(** * More on the wave viewer *)

Module ViewerMore.

Import WaveViewer.
Import ViewerFacts.
Local Open Scope Q_scope.

(** *** Every handler keeps the component well-formed *)

Lemma wellFormed_set_canvas c v : wellFormed (set_canvas c v) <-> wellFormed v.
Proof. reflexivity. Qed.

Lemma keeps_paints {A} (m : M t A) : paints m -> keeps m.
Proof.
  intros Hm v Hv. destruct (Hm v) as [c Hc]. rewrite Hc.
  now apply wellFormed_set_canvas.
Qed.

Lemma keeps_render fuel p : keeps (render fuel p).
Proof. apply keeps_paints, paints_render. Qed.

Lemma keeps_ret {A} (a : A) : keeps (ret a).
Proof. intros v Hv. exact Hv. Qed.

Lemma keeps_bind {A B} (m : M t A) (k : A -> M t B) :
  keeps m -> (forall a, keeps (k a)) -> keeps (bind m k).
Proof.
  intros Hm Hk v Hv. unfold bind. specialize (Hm v Hv).
  destruct (m v) as [[a|e|] v1]; cbn [snd] in *;
    [now apply Hk | assumption | assumption].
Qed.

Lemma keeps_modify (f : t -> t) :
  (forall v, wellFormed v -> wellFormed (f v)) -> keeps (modify f).
Proof. intros Hf v Hv. now apply Hf. Qed.

Lemma inject_Z_nonneg z : (0 <= z)%Z -> 0 <= inject_Z z.
Proof. intros Hz. unfold Qle, inject_Z. cbn [Qnum Qden]. lia. Qed.

Lemma half_width_nonneg s : 0 < s -> 0 <= cv_width / s.
Proof.
  intros Hs. apply Qle_shift_div_l; [assumption|]. unfold cv_width. lra.
Qed.

(** The new [end] of [zoom] and [skip] lies within the data. *)
Lemma clampEnd_bounds x s B :
  0 < s -> 0 <= B ->
  0 <= clamp x (Qmin (cv_width / s) B) B /\
  clamp x (Qmin (cv_width / s) B) B <= B.
Proof.
  intros Hs HB.
  destruct (clamp_bounds x (Qmin (cv_width / s) B) B (Q.le_min_r _ _))
    as [Hlo Hhi].
  split; [|exact Hhi].
  apply Qle_trans with (2 := Hlo).
  apply Q.min_glb; [now apply half_width_nonneg | assumption].
Qed.

Lemma keeps_zoom fuel p delta : keeps (zoom fuel p delta).
Proof.
  intros v ((Hlo & Hhi) & (H0 & Hend) & Hsel).
  destruct (zoom_state fuel p delta v) as [c Hc]. rewrite Hc.
  apply wellFormed_set_canvas. cbv zeta.
  assert (Hscale : 1 # 256
                   <= clamp (scale v * Qpower (101 # 100) delta) (1 # 256) 16
                   <= 16) by (apply clamp_bounds; lra).
  destruct (recording p).
  - repeat split; cbn; tauto.
  - repeat split; cbn; try tauto; apply clampEnd_bounds; lra.
Qed.

Lemma skip_state fuel p delta v :
  exists c,
    snd (skip fuel p delta v)
    = set_canvas c
        (set_end
           (clamp (inject_Z (Qfloor (end_ v + delta / scale v)))
              (Qmin (cv_width / scale v) (bufLen v)) (bufLen v)) v).
Proof.
  unfold skip, bind, modify, get, gets, ret. cbv beta iota.
  match goal with |- context [if ?b then _ else _] => destruct b end.
  - match goal with
    | |- context [render fuel p ?s] =>
        destruct (paints_render fuel p s) as [c Hc]; exists c; rewrite Hc
    end. reflexivity.
  - eexists. cbn [snd]. reflexivity.
Qed.

Lemma keeps_skip fuel p delta : keeps (skip fuel p delta).
Proof.
  intros v ((Hlo & Hhi) & (H0 & Hend) & Hsel).
  destruct (skip_state fuel p delta v) as [c Hc]. rewrite Hc.
  apply wellFormed_set_canvas.
  repeat split; cbn; try tauto; apply clampEnd_bounds; lra.
Qed.

Lemma timeSliderInput_as_zoom fuel p value v :
  timeSliderInput fuel p value v
  = zoom fuel p (16 * value) (set_scale (3906252 # 1000000000) v).
Proof. reflexivity. Qed.

Lemma keeps_timeSliderInput fuel p value :
  keeps (timeSliderInput fuel p value).
Proof.
  intros v ((Hlo & Hhi) & Hend & Hsel).
  rewrite timeSliderInput_as_zoom. apply keeps_zoom.
  repeat split; cbn; try tauto; lra.
Qed.

Lemma keeps_mousedown fuel p x : keeps (mousedown fuel p x).
Proof.
  intros v (Hscale & Hend & Hsel).
  destruct (mousedown_state fuel p x v) as [c Hc]. rewrite Hc.
  apply wellFormed_set_canvas.
  repeat split; cbn; try tauto. apply Qle_refl.
Qed.

Lemma keeps_mousemove fuel p x : keeps (mousemove fuel p x).
Proof.
  intros v (Hscale & Hend & Hsel).
  destruct (dragging v) eqn:Hdrag.
  - destruct (mousemove_state fuel p x v Hdrag) as [c Hc]. rewrite Hc.
    apply wellFormed_set_canvas.
    destruct (Qgtb (sampleIndex v x) (sel_start (selection v))) eqn:Hgt.
    + apply Qltb_lt in Hgt. repeat split; cbn; try tauto.
      now apply Qlt_le_weak.
    + apply Qltb_ge in Hgt. repeat split; cbn; try tauto.
      now apply Qle_trans with (1 := Hgt).
  - rewrite mousemove_idle by assumption. repeat split; tauto.
Qed.

Lemma keeps_mouseup : keeps mouseup.
Proof. intros v Hv. rewrite mouseup_state. exact Hv. Qed.

Lemma keeps_live fuel p : keeps (live fuel p).
Proof.
  intros v (Hscale & (H0 & Hend) & Hsel).
  unfold live, bind, modify, get. cbv beta iota.
  match goal with
  | |- context [render fuel p ?s] =>
      destruct (paints_render fuel p s) as [c Hc]; rewrite Hc
  end.
  apply wellFormed_set_canvas.
  repeat split; cbn; try tauto; [lra | apply Qle_refl].
Qed.

Lemma keeps_update fuel p bufs : keeps (update fuel p bufs).
Proof.
  intros v (Hscale & (H0 & Hend) & Hsel).
  destruct bufs as [[|b0 bs]|].
  - destruct (update_empty_state fuel p (Some []) v) as [c Hc];
      [now right|].
    rewrite Hc. apply wellFormed_set_canvas.
    repeat split; cbn; try tauto; apply Qle_refl.
  - destruct (update_state fuel p b0 bs v) as [c Hc]. rewrite Hc.
    apply wellFormed_set_canvas. cbv zeta.
    set (newBufLen :=
           inject_Z (Z.of_nat (length (b0 :: bs)) * Z.of_nat (length b0))).
    assert (Hnew : 0 <= newBufLen).
    { subst newBufLen. apply inject_Z_nonneg. lia. }
    destruct (Qltb (Qabs (end_ v - bufLen v)) (64 / scale v)
              || Qgtb (bufLen v) newBufLen) eqn:Hcond.
    + unfold wellFormed.
      cbn [scale end_ bufLen selection set_bufLen set_end].
      repeat split; try tauto; first [exact Hnew | apply Qle_refl].
    + apply orb_false_iff in Hcond. destruct Hcond as [_ Hgrow].
      apply Qltb_ge in Hgrow. unfold wellFormed.
      cbn [scale end_ bufLen selection set_bufLen set_end].
      repeat split; try tauto.
      now apply Qle_trans with (1 := Hend).
  - destruct (update_empty_state fuel p None v) as [c Hc]; [now left|].
    rewrite Hc. apply wellFormed_set_canvas.
    repeat split; cbn; try tauto; apply Qle_refl.
Qed.

Lemma keeps_mousewheel fuel p dx dy : keeps (mousewheel fuel p dx dy).
Proof.
  unfold mousewheel. destruct (buffers p) as [[|b0 bs]|];
    try apply keeps_ret.
  apply keeps_bind.
  - destruct (Qgeb (Qabs dx) (Qabs (inject_Z dy)));
      [apply keeps_skip | apply keeps_ret].
  - intros _. destruct (Qgeb (Qabs (inject_Z dy)) (Qabs dx));
      [apply keeps_zoom | apply keeps_ret].
Qed.

Lemma keeps_handle fuel p e : keeps (handle fuel p e).
Proof.
  destruct e; cbn [handle].
  - apply keeps_timeSliderInput.
  - apply keeps_mousedown.
  - apply keeps_mousemove.
  - apply keeps_mouseup.
  - apply keeps_mousewheel.
  - apply keeps_skip.
  - apply keeps_live.
  - apply keeps_update.
Qed.

Lemma wellFormed_data : wellFormed data.
Proof. repeat split; cbn; discriminate. Qed.

(** X6.  From the initial data and through every sequence of slider,
    mouse, wheel, button and data events, under any props, with
    handlers that return or throw: the scale stays within
    [1/256, 16], the window within the data
    ([0 <= start <= end <= bufLen]) and the selection has
    [start <= end]. *)
Theorem run_keeps_wellFormed fuel es :
  let v := run fuel es data in
  wellFormed v /\ 0 <= start v /\ start v <= end_ v.
Proof.
  intros v.
  assert (Hv : wellFormed v).
  { subst v. unfold run.
    generalize wellFormed_data. generalize data.
    induction es as [|[p e] es IH]; intros v0 Hv0; cbn [fold_left].
    - exact Hv0.
    - apply IH. now apply keeps_handle. }
  split; [exact Hv|].
  destruct Hv as ((Hlo & _) & (H0 & _) & _).
  apply start_bounds; [lra | assumption].
Qed.

(** *** Panning against an edge *)

Lemma skip_unmoved fuel p delta v :
  clamp (inject_Z (Qfloor (end_ v + delta / scale v)))
    (Qmin (cv_width / scale v) (bufLen v)) (bufLen v) == end_ v ->
  skip fuel p delta v
  = (Ok tt,
     set_end
       (clamp (inject_Z (Qfloor (end_ v + delta / scale v)))
          (Qmin (cv_width / scale v) (bufLen v)) (bufLen v)) v).
Proof.
  intros Hsame. apply Qeq_bool_iff in Hsame.
  unfold skip, bind, modify, get, gets, ret. cbv beta iota.
  cbn [end_ set_end]. now rewrite Hsame.
Qed.

(** X7.  Panning against an edge moves nothing and draws nothing: to
    the right when [end] is at [bufLen] (a whole number), to the left
    when [end] is at [minEnd = min(cv.width / scale, bufLen)]. *)
Theorem skip_against_edge fuel p delta v :
  0 < scale v ->
  (0 <= delta /\ end_ v == bufLen v
     /\ (exists n : Z, bufLen v == inject_Z n)) \/
  (delta <= 0 /\ end_ v == Qmin (cv_width / scale v) (bufLen v)) ->
  fst (skip fuel p delta v) = Ok tt /\
  end_ (snd (skip fuel p delta v)) == end_ v /\
  canvas (snd (skip fuel p delta v)) = canvas v.
Proof.
  intros Hscale Hedge.
  assert (Hsame :
            clamp (inject_Z (Qfloor (end_ v + delta / scale v)))
              (Qmin (cv_width / scale v) (bufLen v)) (bufLen v)
            == end_ v).
  { unfold clamp. destruct Hedge as [(Hd & Hend & n & Hn) | (Hd & Hend)].
    - assert (Hq : 0 <= delta / scale v)
        by (apply Qle_shift_div_l; [assumption | lra]).
      assert (Hfl : inject_Z n
                    <= inject_Z (Qfloor (end_ v + delta / scale v))).
      { rewrite <- Zle_Qle. rewrite <- (Qfloor_Z n).
        apply Qfloor_resp_le. lra. }
      rewrite (Q.min_l (bufLen v)) by lra.
      rewrite Q.max_r by apply Q.le_min_r. now symmetry.
    - assert (Hq : delta / scale v <= 0)
        by (apply Qle_shift_div_r; [assumption | lra]).
      pose proof (Qfloor_le (end_ v + delta / scale v)) as Hfl.
      pose proof (Q.le_min_r (cv_width / scale v) (bufLen v)) as Hmin.
      rewrite (Q.min_r (bufLen v)) by lra.
      rewrite Q.max_l by lra. now symmetry. }
  rewrite (skip_unmoved fuel p delta v Hsame). cbn [fst snd].
  repeat split. exact Hsame.
Qed.

Lemma skip_against_edge_witness :
  let p := mkProps 44100 (Some [[0; 0]]) false in
  let v := set_scale 1 (set_bufLen 1000 (set_end 1000 data)) in
  fst (skip 10 p 16 v) = Ok tt /\
  end_ (snd (skip 10 p 16 v)) == end_ v /\
  canvas (snd (skip 10 p 16 v)) = canvas v.
Proof.
  intros p v. apply (skip_against_edge 10 p 16 v).
  - reflexivity.
  - left. split; [discriminate|]. split; [reflexivity|].
    exists 1000%Z. reflexivity.
Defined.

(** *** The zoom slider *)





(** *** The wheel *)

Lemma bind_ret_tt (m : M t unit) v : bind m (fun _ => ret tt) v = m v.
Proof.
  unfold bind, ret. destruct (m v) as [[[]|e|] v1]; reflexivity.
Qed.

(** X9.  The wheel is locked to one axis: without data it does nothing
    at all; with data, a mostly horizontal wheel is exactly [skip] and
    a mostly vertical one exactly [zoom]. *)
Theorem mousewheel_axis_lock fuel p dx dy v :
  (buffers p = None \/ buffers p = Some [] ->
   mousewheel fuel p dx dy v = (Ok tt, v)) /\
  (forall b0 bs, buffers p = Some (b0 :: bs) ->
     (Qabs (inject_Z dy) < Qabs dx ->
      mousewheel fuel p dx dy v = skip fuel p dx v) /\
     (Qabs dx < Qabs (inject_Z dy) ->
      mousewheel fuel p dx dy v = zoom fuel p dy v)).
Proof.
  split.
  - intros [H | H]; unfold mousewheel; now rewrite H.
  - intros b0 bs Hbufs. unfold mousewheel. rewrite Hbufs. split.
    + intros Hlt.
      assert (Ha : Qgeb (Qabs dx) (Qabs (inject_Z dy)) = true)
        by (apply Qle_bool_iff; now apply Qlt_le_weak).
      assert (Hb : Qgeb (Qabs (inject_Z dy)) (Qabs dx) = false).
      { apply not_true_iff_false. intros Hc.
        apply Qle_bool_iff in Hc. lra. }
      rewrite Ha, Hb. apply bind_ret_tt.
    + intros Hlt.
      assert (Ha : Qgeb (Qabs dx) (Qabs (inject_Z dy)) = false).
      { apply not_true_iff_false. intros Hc.
        apply Qle_bool_iff in Hc. lra. }
      assert (Hb : Qgeb (Qabs (inject_Z dy)) (Qabs dx) = true)
        by (apply Qle_bool_iff; now apply Qlt_le_weak).
      rewrite Ha, Hb. reflexivity.
Qed.

Lemma mousewheel_axis_lock_witness :
  let p := mkProps 44100 (Some [[1; 2]]) false in
  mousewheel 10 p 3 1 data = skip 10 p 3 data /\
  mousewheel 10 p 1 (-3) data = zoom 10 p (-3) data.
Proof.
  intros p.
  destruct (mousewheel_axis_lock 10 p 3 1 data) as [_ Hwide].
  destruct (mousewheel_axis_lock 10 p 1 (-3) data) as [_ Htall].
  split.
  - apply (Hwide [1; 2] []); reflexivity.
  - apply (Htall [1; 2] []); reflexivity.
Defined.

(** *** [render] returns *)

Lemma renderScale_returns p v :
  exists k, forall fuel, (k <= fuel)%nat ->
    exists ops,
      renderScale fuel p v = (Ok tt, set_canvas (canvas v ++ ops) v).
Proof.
  set (pps := sampleRate p * scale v).
  destruct (rulerLoop_stops pps (Z.to_nat (Qceiling (pps * 1))) 1)
    as (k & _ & Hrun & _ & _).
  { pose proof (Qle_ceiling (pps * 1)) as Hc.
    apply Qle_trans with (1 := Hc).
    assert (Hz : inject_Z (Qceiling (pps * 1))
                 <= inject_Z (Z.of_nat (Z.to_nat (Qceiling (pps * 1))))).
    { rewrite <- Zle_Qle. lia. }
    unfold cv_width. assert (Hhalf : 512 / 2 == 256) by reflexivity.
    rewrite Hhalf. lra. }
  exists k. intros fuel Hfuel.
  destruct (labelLoop_stops k (tenths k 1) fuel Hfuel) as [label Hlabel].
  { rewrite tenths_pow, Qmult_1_l.
    rewrite <- Qpower_plus by (intros H; discriminate H).
    replace (- Z.of_nat k + Z.of_nat k)%Z with 0%Z by lia.
    simpl. lra. }
  destruct (renderScale_draws fuel p v (tenths k 1) label
              (Hrun fuel Hfuel) Hlabel) as [unit Hdraw].
  eexists. rewrite Hdraw, <- app_assoc. reflexivity.
Qed.

(** A loop that advances its counter by at least one each round
    stops. *)
Lemma countingLoop_stops {A} (len c : Q) (body : Q * A -> Q * A) :
  1 <= c ->
  (forall i a, fst (body (i, a)) == i + c) ->
  forall n i a fuel,
    len - i <= inject_Z (Z.of_nat n) -> (n <= fuel)%nat ->
    exists r, while fuel (fun '(i, _) => Qltb i len) body (i, a) = Ok r.
Proof.
  intros Hc Hbody. induction n as [|n IH]; intros i a fuel Hn Hfuel.
  - exists (i, a). apply while_false. apply Qltb_ge.
    change (inject_Z (Z.of_nat 0)) with 0 in Hn. lra.
  - destruct (Qltb i len) eqn:Hcond.
    + destruct fuel as [|fuel]; [lia|].
      rewrite while_true by assumption.
      destruct (body (i, a)) as [i' a'] eqn:Hb.
      apply IH; [|lia].
      pose proof (Hbody i a) as Hi. rewrite Hb in Hi. cbn [fst] in Hi.
      rewrite Nat2Z.inj_succ, <- Z.add_1_r, inject_Z_plus in Hn.
      change (inject_Z 1) with 1 in Hn. lra.
    + exists (i, a). now apply while_false.
Qed.

Lemma rounds_covers len : len <= inject_Z (Z.of_nat (rounds len)).
Proof.
  unfold rounds. apply Qle_trans with (1 := Qle_ceiling len).
  rewrite <- Zle_Qle. lia.
Qed.

Lemma sparse_chunk s : 0 < s -> s <= 1 # 32 -> 1 <= inject_Z (Qfloor (1 / s)).
Proof.
  intros Hpos Hsmall.
  assert (H32 : 32 <= 1 / s) by (apply Qle_shift_div_l; lra).
  apply Qfloor_resp_le in H32. change (Qfloor 32) with 32%Z in H32.
  apply Qle_trans with (inject_Z 32); [discriminate|].
  now rewrite <- Zle_Qle.
Qed.

(** X11.  At a positive scale [render] comes to an end, given fuel for
    its loops: it returns when the block list is there, empty or not,
    and raises [TypeError] when it is [null]. *)
Theorem render_returns p v :
  0 < scale v ->
  exists n, forall fuel, (n <= fuel)%nat ->
    fst (render fuel p v)
    = match buffers p with
      | Some _ => Ok tt
      | None => Throw TypeError
      end.
Proof.
  intros Hscale.
  destruct (renderScale_returns p (set_canvas [] v)) as [k Hk].
  exists (k + rounds (end_ v - start v))%nat. intros fuel Hfuel.
  destruct (Hk fuel ltac:(lia)) as [ops Hruler].
  unfold render.
  unfold bind at 1, get at 1. cbv beta iota.
  unfold bind at 1, modify at 1. cbv beta iota.
  unfold bind at 1. rewrite Hruler. cbv beta iota.
  unfold bind at 1.
  destruct (buffers p) as [bufs|]; [|reflexivity].
  unfold deref, ret. cbv beta iota.
  destruct bufs as [|b0 rest]; [reflexivity|].
  destruct (Qgtb (scale v) (1 # 32)) eqn:Hmode.
  - unfold bind, draw, modify. cbv beta iota.
    match goal with |- context [if ?b then _ else _] => destruct b end;
      reflexivity.
  - apply Qltb_ge in Hmode.
    match goal with
    | |- context [while fuel ?c ?b (0, [])] =>
        assert (Hw : exists r, while fuel c b (0, []) = Ok r)
    end.
    { apply (countingLoop_stops (end_ v - start v)
               (inject_Z (Qfloor (1 / scale v))))
        with (n := rounds (end_ v - start v)).
      - now apply sparse_chunk.
      - intros i a. destruct (columnRange _ _ _). reflexivity.
      - pose proof (rounds_covers (end_ v - start v)). lra.
      - lia. }
    destruct Hw as [r Hr].
    unfold bind at 1. unfold bind at 1. unfold lift at 1.
    rewrite Hr. unfold modify, draw. cbv beta iota.
    match goal with |- context [if ?b then _ else _] => destruct b end;
      reflexivity.
Qed.

Lemma render_returns_witness :
  exists n, forall fuel, (n <= fuel)%nat ->
    fst (render fuel (mkProps 44100 (Some [[1; 2]]) false) data) = Ok tt.
Proof.
  apply (render_returns (mkProps 44100 (Some [[1; 2]]) false) data).
  reflexivity.
Defined.

(** *** The line of the zoomed-in drawing *)

(** At a whole index [getData] is a number, inside of the data or
    not. *)
Lemma getData_whole L bufs q (z : Z) :
  uniform L bufs -> q == inject_Z z ->
  exists x, getData bufs q = JSNumber x.
Proof.
  intros Hu Hq. unfold getData.
  destruct (Qeq_bool (inject_Z (Z.of_nat (length (hd [] bufs)))) 0)
    eqn:Hzero; [now exists 0|].
  destruct bufs as [|b0 rest]; [discriminate Hzero|].
  cbn [hd] in *.
  assert (Hb0 : length b0 = L) by now inversion Hu.
  rewrite Hb0 in *.
  destruct (Z.of_nat L) as [|l|l] eqn:El; try lia; [discriminate Hzero|].
  assert (Hfl : Qfloor (q / inject_Z (Z.pos l)) = (z / Z.pos l)%Z).
  { rewrite <- Qfloor_quotient. apply Qfloor_comp. now rewrite Hq. }
  rewrite Hfl.
  destruct (Z.leb_spec 0 (z / Z.pos l)) as [Hq0 | _]; [|now exists 0].
  destruct (nth_error (b0 :: rest) (Z.to_nat (z / Z.pos l)))
    as [chunk|] eqn:Hchunk; [|now exists 0].
  assert (Hz : (0 <= z)%Z).
  { destruct (Z.le_gt_cases 0 z) as [|Hneg]; [assumption|].
    pose proof (Z.div_lt_upper_bound z (Z.pos l) 0). lia. }
  assert (Hlen : length chunk = L).
  { apply nth_error_In in Hchunk.
    unfold uniform in Hu. rewrite Forall_forall in Hu. now apply Hu. }
  pose proof (Z.mod_pos_bound z (Z.pos l) ltac:(lia)) as Hr.
  assert (Hrem : Qrem q (inject_Z (Z.pos l))
                 == inject_Z (z mod Z.pos l)).
  { unfold Qrem, Qtrunc.
    assert (Hnn : Qle_bool 0 (q / inject_Z (Z.pos l)) = true).
    { apply Qle_bool_iff. apply Qle_shift_div_l; [reflexivity|].
      rewrite Qmult_0_l, Hq. now apply inject_Z_nonneg. }
    rewrite Hnn, Hfl, Hq.
    rewrite (Z.div_mod z (Z.pos l)) at 1 by lia.
    rewrite inject_Z_plus, inject_Z_mult. ring. }
  unfold typedGet, arrayIndex.
  rewrite (Qfloor_comp _ _ Hrem), Qfloor_Z.
  assert (Hint : Qeq_bool (Qrem q (inject_Z (Z.pos l)))
                   (inject_Z (z mod Z.pos l)) = true)
    by now apply Qeq_bool_iff.
  rewrite Hint.
  destruct (Z.leb_spec 0 (z mod Z.pos l)) as [_|]; [|lia].
  cbn [andb].
  destruct (nth_error chunk (Z.to_nat (z mod Z.pos l))) as [x|] eqn:Hx.
  - now exists x.
  - apply nth_error_None in Hx. lia.
Qed.

(** [start] is a whole number when [end] is. *)
Lemma start_whole v (e : Z) :
  end_ v == inject_Z e -> exists s : Z, start v == inject_Z s.
Proof.
  intros He. unfold start.
  destruct (Q.max_spec 0
              (end_ v - inject_Z (Qceiling (cv_width / scale v)) - 1))
    as [[_ Hmax] | [_ Hmax]].
  - exists (e - Qceiling (cv_width / scale v) - 1)%Z.
    rewrite Hmax, He. unfold Z.sub.
    rewrite !inject_Z_plus, !inject_Z_opp. reflexivity.
  - exists 0%Z. exact Hmax.
Qed.

(** X12.  Zoomed in ([scale > 1/32]), over at least one block, all
    blocks of one length, and with a whole [end]: given fuel for the
    ruler, [render] draws the ruler, then one line and at most a
    selection overlay; the line has one point for each [i] with
    [0 <= i < end - start], at [x = i * scale], and every [y] is a
    number, never [NaN]. *)
Theorem render_dense_line p v L bufs (e : Z) :
  buffers p = Some bufs -> bufs <> [] -> uniform L bufs ->
  1 # 32 < scale v -> end_ v == inject_Z e ->
  exists n, forall fuel, (n <= fuel)%nat ->
    exists ruler path overlay,
      canvas (snd (render fuel p v)) = ruler ++ Stroke path :: overlay /\
      (length ruler = 2 /\ length overlay <= 1)%nat /\
      length path = rounds (end_ v - start v) /\
      forall i pt, nth_error path i = Some pt ->
        fst pt = inject_Z (Z.of_nat i) * scale v /\
        exists y, snd pt = Fin y.
Proof.
  intros Hbufs Hne Hu Hscale He.
  destruct (start_whole v e He) as [s Hs].
  set (pps := sampleRate p * scale (set_canvas [] v)).
  destruct (rulerLoop_stops pps (Z.to_nat (Qceiling (pps * 1))) 1)
    as (k & _ & Hrun & _ & _).
  { pose proof (Qle_ceiling (pps * 1)) as Hc.
    apply Qle_trans with (1 := Hc).
    assert (Hz : inject_Z (Qceiling (pps * 1))
                 <= inject_Z (Z.of_nat (Z.to_nat (Qceiling (pps * 1))))).
    { rewrite <- Zle_Qle. lia. }
    unfold cv_width. assert (Hhalf : 512 / 2 == 256) by reflexivity.
    rewrite Hhalf. lra. }
  exists k. intros fuel Hfuel.
  destruct (labelLoop_stops k (tenths k 1) fuel Hfuel) as [label Hlabel].
  { rewrite tenths_pow, Qmult_1_l.
    rewrite <- Qpower_plus by (intros H; discriminate H).
    replace (- Z.of_nat k + Z.of_nat k)%Z with 0%Z by lia.
    simpl. lra. }
  destruct (renderScale_draws fuel p (set_canvas [] v) (tenths k 1) label
              (Hrun fuel Hfuel) Hlabel) as [unit Hruler].
  destruct bufs as [|b0 rest]; [congruence|].
  assert (Hmode : Qgtb (scale v) (1 # 32) = true) by now apply Qltb_lt.
  unfold render.
  unfold bind at 1, get at 1. cbv beta iota.
  unfold bind at 1, modify at 1. cbv beta iota.
  unfold bind at 1. rewrite Hruler. cbv beta iota.
  unfold bind at 1. rewrite Hbufs. unfold deref, ret. cbv beta iota.
  rewrite Hmode. unfold bind, draw, modify. cbv beta iota.
  match goal with
  | |- context [Stroke ?path] => set (line := path)
  end.
  assert (Hline : length line = rounds (end_ v - start v) /\
                  forall i pt, nth_error line i = Some pt ->
                    fst pt = inject_Z (Z.of_nat i) * scale v /\
                    exists y, snd pt = Fin y).
  { subst line. split; [now rewrite length_map, length_seq|].
    intros i pt Hpt.
    rewrite nth_error_map in Hpt.
    destruct (nth_error (seq 0 (rounds (end_ v - start v))) i)
      as [j|] eqn:Hj; [|discriminate Hpt].
    assert (Hji : j = i).
    { pose proof (nth_error_Some (seq 0 (rounds (end_ v - start v))) i)
        as Hsome. rewrite Hj in Hsome.
      assert (Hlt : (i < length (seq 0 (rounds (end_ v - start v))))%nat)
        by (apply Hsome; discriminate).
      rewrite length_seq in Hlt.
      apply (nth_error_nth _ _ 0%nat) in Hj.
      rewrite seq_nth in Hj by assumption. lia. }
    subst j. cbn [option_map] in Hpt. injection Hpt as <-.
    split; [reflexivity|]. cbn [snd].
    match goal with
    | |- context [getData ?bs ?q] =>
        destruct (getData_whole L bs q
                    (s + Z.of_nat i
                     - Z.of_nat
                         (if lockWave v && Qeq_bool (end_ v) (bufLen v)
                          then lockScan (b0 :: rest) (end_ v)
                                 (seq 0 (length b0)) NegInf 0
                          else 0%nat))%Z Hu) as [x Hx]
    end.
    { rewrite Hs. unfold Z.sub.
      rewrite !inject_Z_plus, inject_Z_opp. reflexivity. }
    rewrite Hx. now exists (100 * x). }
  destruct Hline as [Hlen Hpts].
  match goal with |- context [if ?b then _ else _] => destruct b end;
    cbn [snd canvas set_canvas].
  - eexists [_; _], line, [_].
    split; [reflexivity|]. split; [split; [reflexivity | cbn; lia]|].
    split; assumption.
  - eexists [_; _], line, [].
    split; [reflexivity|]. split; [split; [reflexivity | cbn; lia]|].
    split; assumption.
Qed.

Lemma render_dense_line_witness :
  let p := mkProps 44100 (Some [[1; 2]; [3; 4]]) false in
  let v := set_scale 1 (set_bufLen 4 (set_end 4 data)) in
  exists n, forall fuel, (n <= fuel)%nat ->
    exists ruler path overlay,
      canvas (snd (render fuel p v)) = ruler ++ Stroke path :: overlay /\
      (length ruler = 2 /\ length overlay <= 1)%nat /\
      length path = rounds (end_ v - start v) /\
      forall i pt, nth_error path i = Some pt ->
        fst pt = inject_Z (Z.of_nat i) * scale v /\
        exists y, snd pt = Fin y.
Proof.
  intros p v.
  apply (render_dense_line p v 2 [[1; 2]; [3; 4]] 4).
  - reflexivity.
  - discriminate.
  - repeat constructor.
  - reflexivity.
  - reflexivity.
Defined.

(** *** The columns of the zoomed-out drawing *)

Lemma while_invariant {A} (P : A -> Prop) (cond : A -> bool)
    (body : A -> A) :
  (forall a, cond a = true -> P a -> P (body a)) ->
  forall fuel x r,
    P x -> while fuel cond body x = Ok r -> P r /\ cond r = false.
Proof.
  intros Hstep. induction fuel as [|fuel IH]; intros x r Hx Hrun;
    cbn [while] in Hrun; destruct (cond x) eqn:Hc.
  - discriminate Hrun.
  - injection Hrun as <-. now split.
  - apply (IH (body x)); [now apply Hstep | assumption].
  - injection Hrun as <-. now split.
Qed.

(** [a <= b] on numbers that are both finite. *)
Lemma num_ltb_fin x y : num_ltb (Fin x) (Fin y) = Qltb x y.
Proof. reflexivity. Qed.

(** The range of a column whose lookups are all numbers: finite, and
    around each of the values. *)
Lemma columnRange_spans bufs from (chunk : Z) :
  (0 < chunk)%Z ->
  (forall j, (j < Z.to_nat chunk)%nat ->
     exists x, getData bufs (from + inject_Z (Z.of_nat j)) = JSNumber x) ->
  exists lo hi,
    columnRange bufs from chunk = (Fin lo, Fin hi) /\ lo <= hi /\
    forall j x, (j < Z.to_nat chunk)%nat ->
      getData bufs (from + inject_Z (Z.of_nat j)) = JSNumber x ->
      lo <= 100 * x /\ 100 * x <= hi.
Proof.
  intros Hchunk. unfold columnRange.
  set (step := fun '(minv, maxv) j =>
                 let value :=
                   times100 (getData bufs (from + inject_Z (Z.of_nat j))) in
                 (if num_ltb value minv then value else minv,
                  if num_ltb maxv value then value else maxv)).
  assert (Hgen : forall n,
            (forall j, (j < S n)%nat ->
               exists x,
                 getData bufs (from + inject_Z (Z.of_nat j)) = JSNumber x) ->
            exists lo hi,
              fold_left step (seq 0 (S n)) (PosInf, NegInf)
              = (Fin lo, Fin hi) /\ lo <= hi /\
              forall j x, (j < S n)%nat ->
                getData bufs (from + inject_Z (Z.of_nat j)) = JSNumber x ->
                lo <= 100 * x /\ 100 * x <= hi).
  { induction n as [|n IH]; intros Hall.
    - destruct (Hall 0%nat ltac:(lia)) as [x Hx].
      exists (100 * x), (100 * x). cbn [seq fold_left step].
      rewrite Hx. cbn [times100 num_ltb].
      split; [reflexivity|]. split; [apply Qle_refl|].
      intros j y Hj Hy. assert (j = 0)%nat by lia. subst j.
      rewrite Hx in Hy. injection Hy as <-. split; apply Qle_refl.
    - destruct IH as (lo & hi & Hfold & Hle & Hin).
      { intros j Hj. apply Hall. lia. }
      destruct (Hall (S n) ltac:(lia)) as [x Hx].
      rewrite seq_S, fold_left_app, Hfold. cbn [fold_left step Nat.add].
      rewrite Hx. cbn [times100]. rewrite !num_ltb_fin.
      destruct (Qltb (100 * x) lo) eqn:Hlo;
        destruct (Qltb hi (100 * x)) eqn:Hhi;
        try apply Qltb_lt in Hlo; try apply Qltb_ge in Hlo;
        try apply Qltb_lt in Hhi; try apply Qltb_ge in Hhi;
        eexists _, _; (split; [reflexivity|]); (split; [lra|]);
        intros j y Hj Hy;
        (destruct (Nat.eq_dec j (S n)) as [-> | Hne];
         [rewrite Hx in Hy; injection Hy as <-; lra
         | destruct (Hin j y ltac:(lia) Hy); lra]). }
  intros Hall.
  destruct (Z.to_nat chunk) as [|n] eqn:Hn; [lia|].
  now apply Hgen.
Qed.

(** X13.  Zoomed out ([0 < scale <= 1/32]), over at least one block,
    all blocks of one length, and with a whole [end]: given fuel,
    [render] draws the ruler, then the columns and at most a selection
    overlay.  A column takes [chunk = floor(1 / scale) >= 32] samples;
    there are just enough columns to cover [end - start]; column [j]
    is drawn at [x = j * chunk * scale], and its rectangle spans a
    finite range [lo <= hi] that holds 100 times every sample looked up
    for that column. *)
Theorem render_sparse_columns p v L bufs (e : Z) :
  buffers p = Some bufs -> bufs <> [] -> uniform L bufs ->
  0 < scale v -> scale v <= 1 # 32 -> end_ v == inject_Z e ->
  let chunk := Qfloor (1 / scale v) in
  let len := end_ v - start v in
  exists n, forall fuel, (n <= fuel)%nat ->
    exists ruler columns overlay,
      canvas (snd (render fuel p v)) = ruler ++ columns ++ overlay /\
      (length ruler = 2 /\ length overlay <= 1)%nat /\
      (32 <= chunk)%Z /\
      len <= inject_Z (Z.of_nat (length columns) * chunk) /\
      (forall j, (j < length columns)%nat ->
         inject_Z (Z.of_nat j * chunk) < len) /\
      forall j col, nth_error columns j = Some col ->
        exists i0 lo hi,
          i0 == inject_Z (Z.of_nat j * chunk) /\
          col = FillColumn (i0 * scale v) (Fin lo) (Fin hi) /\
          lo <= hi /\
          forall i x, (i < Z.to_nat chunk)%nat ->
            getData bufs (start v + i0 + inject_Z (Z.of_nat i))
            = JSNumber x ->
            lo <= 100 * x /\ 100 * x <= hi.
Proof.
  intros Hbufs Hne Hu Hpos Hsmall He chunk len.
  destruct (start_whole v e He) as [s Hs].
  assert (Hchunk1 : 1 <= inject_Z chunk) by now apply sparse_chunk.
  assert (Hchunk : (32 <= chunk)%Z).
  { assert (H32 : 32 <= 1 / scale v) by (apply Qle_shift_div_l; lra).
    apply Qfloor_resp_le in H32. exact H32. }
  destruct (renderScale_returns p (set_canvas [] v)) as [k Hk].
  exists (k + rounds len)%nat. intros fuel Hfuel.
  destruct (Hk fuel ltac:(lia)) as [ops Hruler].
  assert (Hops : length ops = 2%nat).
  { clear - Hruler. unfold renderScale, bind, get, lift, draw, modify in Hruler.
    cbv beta iota in Hruler.
    destruct (rulerMul fuel _) as [m| |]; try discriminate Hruler.
    cbv beta iota in Hruler.
    destruct (while fuel _ _ m) as [m'| |]; try discriminate Hruler.
    cbv beta iota in Hruler. injection Hruler as Hcanvas.
    now subst ops. }
  destruct bufs as [|b0 rest]; [congruence|].
  assert (Hmode : Qgtb (scale v) (1 # 32) = false) by now apply Qltb_ge.
  unfold render.
  unfold bind at 1, get at 1. cbv beta iota.
  unfold bind at 1, modify at 1. cbv beta iota.
  unfold bind at 1. rewrite Hruler. cbv beta iota.
  unfold bind at 1. rewrite Hbufs. unfold deref, ret. cbv beta iota.
  rewrite Hmode. fold chunk. fold len.
  match goal with
  | |- context [while fuel ?c ?b (0, [])] =>
      set (cond := c); set (body := b)
  end.
  (* the loop returns *)
  assert (Hw : exists r, while fuel cond body (0, []) = Ok r).
  { apply (countingLoop_stops len (inject_Z chunk)) with (n := rounds len).
    - exact Hchunk1.
    - intros i a. subst body. cbv beta iota.
      destruct (columnRange _ _ _). reflexivity.
    - pose proof (rounds_covers len). lra.
    - lia. }
  destruct Hw as [[iEnd columns] Hr].
  (* what it has drawn *)
  set (P := fun st : Q * list drawOp =>
              let '(i, cols) := st in
              i == inject_Z (Z.of_nat (length cols) * chunk) /\
              (forall j, (j < length cols)%nat ->
                 inject_Z (Z.of_nat j * chunk) < len) /\
              forall j col, nth_error cols j = Some col ->
                exists i0 lo hi,
                  i0 == inject_Z (Z.of_nat j * chunk) /\
                  col = FillColumn (i0 * scale v) (Fin lo) (Fin hi) /\
                  lo <= hi /\
                  forall i x, (i < Z.to_nat chunk)%nat ->
                    getData (b0 :: rest)
                      (start v + i0 + inject_Z (Z.of_nat i)) = JSNumber x ->
                    lo <= 100 * x /\ 100 * x <= hi).
  assert (Hinv : P (iEnd, columns) /\ cond (iEnd, columns) = false).
  { apply (while_invariant P cond body) with (fuel := fuel) (x := (0, [])).
    - intros [i cols] Hcond (Hi & Hbefore & Hcols).
      subst cond. cbv beta iota in Hcond. apply Qltb_lt in Hcond.
      destruct (columnRange_spans (b0 :: rest) (start v + i) chunk)
        as (lo & hi & Hrange & Hle & Hspan); [lia | |].
      { intros j _.
        apply (getData_whole L _ _
                 (s + Z.of_nat (length cols) * chunk + Z.of_nat j)%Z Hu).
        rewrite Hs, Hi, !inject_Z_plus. reflexivity. }
      subst body. cbv beta iota. rewrite Hrange. cbv beta iota.
      unfold P. rewrite length_app. cbn [length].
      split; [|split].
      + rewrite Hi. rewrite <- inject_Z_plus. apply inject_Z_injective.
        lia.
      + intros j Hj.
        destruct (Nat.eq_dec j (length cols)) as [-> | Hneq].
        * now rewrite <- Hi.
        * apply Hbefore. lia.
      + intros j col Hcol.
        destruct (Nat.lt_ge_cases j (length cols)) as [Hold | Hnew].
        * rewrite nth_error_app1 in Hcol by assumption. now apply Hcols.
        * rewrite nth_error_app2 in Hcol by assumption.
          destruct (j - length cols)%nat as [|d] eqn:Hd;
            [|destruct d; discriminate Hcol].
          cbn [nth_error] in Hcol. injection Hcol as <-.
          assert (j = length cols) by lia. subst j.
          exists i, lo, hi. split; [exact Hi|]. split; [reflexivity|].
          split; [exact Hle | exact Hspan].
    - unfold P. cbn [length]. split; [reflexivity|]. split.
      + intros j Hj. lia.
      + intros j col Hcol. destruct j; discriminate Hcol.
    - exact Hr. }
  destruct Hinv as [(Hi & Hbefore & Hcols) Hcond].
  subst cond. cbv beta iota in Hcond. apply Qltb_ge in Hcond.
  unfold bind at 1. unfold bind at 1. unfold lift at 1.
  rewrite Hr. unfold modify, draw. cbv beta iota. cbn [snd].
  destruct (Qltb (sel_start (selection v)) (end_ v)
            && Qgtb (sel_end (selection v)) (start v));
    unfold modify; cbn [snd canvas set_canvas app].
  - exists ops, columns, [FillRect
        ((sel_start (selection v) - start v) * scale v)
        (- cv_height / 2)
        ((sel_end (selection v) - sel_start (selection v)) * scale v)
        cv_height].
    rewrite <- app_assoc.
    split; [reflexivity|]. split; [split; [assumption | cbn; lia]|].
    split; [assumption|]. split; [now rewrite <- Hi|].
    split; assumption.
  - exists ops, columns, []. rewrite app_nil_r.
    split; [reflexivity|]. split; [split; [assumption | cbn; lia]|].
    split; [assumption|]. split; [now rewrite <- Hi|].
    split; assumption.
Qed.

Lemma render_sparse_columns_witness :
  let p := mkProps 44100 (Some [[1; 2]; [3; 4]]) false in
  let v := set_bufLen 4 (set_end 4 data) in
  let chunk := Qfloor (1 / scale v) in
  let len := end_ v - start v in
  exists n, forall fuel, (n <= fuel)%nat ->
    exists ruler columns overlay,
      canvas (snd (render fuel p v)) = ruler ++ columns ++ overlay /\
      (length ruler = 2 /\ length overlay <= 1)%nat /\
      (32 <= chunk)%Z /\
      len <= inject_Z (Z.of_nat (length columns) * chunk) /\
      (forall j, (j < length columns)%nat ->
         inject_Z (Z.of_nat j * chunk) < len) /\
      forall j col, nth_error columns j = Some col ->
        exists i0 lo hi,
          i0 == inject_Z (Z.of_nat j * chunk) /\
          col = FillColumn (i0 * scale v) (Fin lo) (Fin hi) /\
          lo <= hi /\
          forall i x, (i < Z.to_nat chunk)%nat ->
            getData [[1; 2]; [3; 4]]
              (start v + i0 + inject_Z (Z.of_nat i)) = JSNumber x ->
            lo <= 100 * x /\ 100 * x <= hi.
Proof.
  intros p v.
  apply (render_sparse_columns p v 2 [[1; 2]; [3; 4]] 4).
  - reflexivity.
  - discriminate.
  - repeat constructor.
  - reflexivity.
  - discriminate.
  - reflexivity.
Defined.

(** *** The wave-lock scan *)

Lemma lockScan_gen bufs e n :
  forall a maxv maxi,
    let value i := getData bufs (e - inject_Z (Z.of_nat i)) in
    let scanned i := 0 <= e - inject_Z (Z.of_nat i) in
    (maxv = NegInf /\ maxi = 0%nat /\
     (forall i, (i < a)%nat -> scanned i -> value i = JSUndefined)) \/
    (exists m, maxv = Fin m /\ (maxi < a)%nat /\ scanned maxi /\
       value maxi = JSNumber m /\
       forall i x, (i < a)%nat -> scanned i -> value i = JSNumber x ->
         x <= m /\ ((i < maxi)%nat -> x < m)) ->
    let r := lockScan bufs e (seq a n) maxv maxi in
    (r = 0%nat /\
     (forall i, (i < a + n)%nat -> scanned i -> value i = JSUndefined)) \/
    (exists m, (r < a + n)%nat /\ scanned r /\ value r = JSNumber m /\
       forall i x, (i < a + n)%nat -> scanned i -> value i = JSNumber x ->
         x <= m /\ ((i < r)%nat -> x < m)).
Proof.
  cbv zeta.
  induction n as [|n IH]; intros a maxv maxi Hstate.
  - cbn [seq lockScan]. rewrite Nat.add_0_r.
    destruct Hstate
      as [(_ & -> & Hnone) | (m & _ & Hlt & Hsc0 & Hval & Hmax)].
    + now left.
    + right. now exists m.
  - cbn [seq lockScan].
    destruct (Qltb (e - inject_Z (Z.of_nat a)) 0) eqn:Hbreak.
    + (* break: nothing from [a] on is scanned *)
      apply Qltb_lt in Hbreak.
      assert (Hrest : forall i, (a <= i)%nat ->
                ~ 0 <= e - inject_Z (Z.of_nat i)).
      { intros i Hi Hsc.
        assert (inject_Z (Z.of_nat a) <= inject_Z (Z.of_nat i))
          by (rewrite <- Zle_Qle; lia).
        lra. }
      destruct Hstate
        as [(_ & -> & Hnone) | (m & _ & Hlt & Hsc0 & Hval & Hmax)].
      * left. split; [reflexivity|]. intros i _ Hsc.
        destruct (Nat.lt_ge_cases i a) as [Hi | Hi];
          [now apply Hnone | now destruct (Hrest i Hi)].
      * right. exists m. split; [lia|]. split; [exact Hsc0|].
        split; [exact Hval|].
        intros i x _ Hsc Hx.
        destruct (Nat.lt_ge_cases i a) as [Hi | Hi];
          [now apply Hmax | now destruct (Hrest i Hi)].
    + apply Qltb_ge in Hbreak.
      replace (a + S n)%nat with (S a + n)%nat by lia.
      destruct (getData bufs (e - inject_Z (Z.of_nat a))) as [x|] eqn:Ha;
        cbn [toNumber].
      * destruct (num_ltb maxv (Fin x)) eqn:Hcmp.
        -- (* a new maximum at [a] *)
           apply IH. right. exists x.
           split; [reflexivity|]. split; [lia|]. split; [exact Hbreak|].
           split; [exact Ha|].
           intros i y Hi Hsc Hy.
           destruct (Nat.eq_dec i a) as [-> | Hne].
           ++ rewrite Ha in Hy. injection Hy as <-.
              split; [apply Qle_refl | lia].
           ++ destruct Hstate
                as [(-> & _ & Hnone)
                   | (m & -> & Hlt & Hsc0 & Hval & Hmax)].
              ** rewrite (Hnone i ltac:(lia) Hsc) in Hy. discriminate Hy.
              ** cbn [num_ltb] in Hcmp. apply Qltb_lt in Hcmp.
                 destruct (Hmax i y ltac:(lia) Hsc Hy) as [Hle _].
                 split; [lra | intros _; lra].
        -- (* the maximum stays *)
           apply IH.
           destruct Hstate
             as [(-> & _ & _) | (m & -> & Hlt & Hsc0 & Hval & Hmax)];
             [discriminate Hcmp|].
           cbn [num_ltb] in Hcmp. apply Qltb_ge in Hcmp.
           right. exists m.
           split; [reflexivity|]. split; [lia|]. split; [exact Hsc0|].
           split; [exact Hval|].
           intros i y Hi Hsc Hy.
           destruct (Nat.eq_dec i a) as [-> | Hne].
           ++ rewrite Ha in Hy. injection Hy as <-.
              split; [exact Hcmp | lia].
           ++ apply Hmax; [lia | assumption | assumption].
      * (* [undefined]: the comparison with [NaN] is false *)
        assert (Hcmp : num_ltb maxv NaN = false) by now destruct maxv.
        rewrite Hcmp. apply IH.
        destruct Hstate
          as [(-> & -> & Hnone) | (m & -> & Hlt & Hsc0 & Hval & Hmax)].
        -- left. split; [reflexivity|]. split; [reflexivity|].
           intros i Hi Hsc.
           destruct (Nat.eq_dec i a) as [-> | Hne];
             [exact Ha | apply Hnone; [lia | assumption]].
        -- right. exists m.
           split; [reflexivity|]. split; [lia|]. split; [exact Hsc0|].
           split; [exact Hval|].
           intros i y Hi Hsc Hy.
           destruct (Nat.eq_dec i a) as [-> | Hne].
           ++ rewrite Ha in Hy. discriminate Hy.
           ++ apply Hmax; [lia | assumption | assumption].
Qed.

(** X19.  The wave-lock scan over the offsets [0 .. L - 1] from [end]
    backwards, where an offset is looked up when it does not reach
    before sample 0 ([end - i >= 0]).  Either no lookup gave a number
    and the offset returned is 0; or the offset returned was looked up,
    holds a number, and is the first offset of the largest number
    looked up: every number looked up is at most it, and those at
    smaller offsets are smaller.  Offsets before sample 0 and
    [undefined] lookups never win.  No other offset answers this
    description. *)
Theorem lockScan_first_maximum bufs e L :
  let value i := getData bufs (e - inject_Z (Z.of_nat i)) in
  let scanned i := 0 <= e - inject_Z (Z.of_nat i) in
  let firstMaximum r :=
    (r = 0%nat /\
     forall i, (i < L)%nat -> scanned i -> value i = JSUndefined) \/
    ((r < L)%nat /\ scanned r /\
     exists m, value r = JSNumber m /\
       forall i x, (i < L)%nat -> scanned i -> value i = JSNumber x ->
         x <= m /\ ((i < r)%nat -> x < m)) in
  firstMaximum (lockScan bufs e (seq 0 L) NegInf 0) /\
  forall r, firstMaximum r -> r = lockScan bufs e (seq 0 L) NegInf 0.
Proof.
  cbv zeta.
  assert (Hscan :
    let value i := getData bufs (e - inject_Z (Z.of_nat i)) in
    let scanned i := 0 <= e - inject_Z (Z.of_nat i) in
    let r := lockScan bufs e (seq 0 L) NegInf 0 in
    (r = 0%nat /\
     forall i, (i < L)%nat -> scanned i -> value i = JSUndefined) \/
    ((r < L)%nat /\ scanned r /\
     exists m, value r = JSNumber m /\
       forall i x, (i < L)%nat -> scanned i -> value i = JSNumber x ->
         x <= m /\ ((i < r)%nat -> x < m))).
  { cbv zeta.
    pose proof (lockScan_gen bufs e L 0 NegInf 0) as Hgen.
    cbv zeta in Hgen. cbn [Nat.add] in Hgen.
    destruct Hgen as [(Hr & Hnone) | (m & Hlt & Hsc & Hval & Hmax)].
    { left. split; [reflexivity|]. split; [reflexivity|].
      intros i Hi. lia. }
    - left. now split.
    - right. split; [exact Hlt|]. split; [exact Hsc|].
      exists m. now split. }
  cbv zeta in Hscan. split; [exact Hscan|].
  set (r0 := lockScan bufs e (seq 0 L) NegInf 0) in *.
  intros r Hr.
  destruct Hr as [(-> & Hnone) | (Hlt & Hsc & m & Hval & Hmax)];
    destruct Hscan as [(-> & Hnone0) | (Hlt0 & Hsc0 & m0 & Hval0 & Hmax0)].
  - reflexivity.
  - rewrite (Hnone r0 Hlt0 Hsc0) in Hval0. discriminate Hval0.
  - rewrite (Hnone0 r Hlt Hsc) in Hval. discriminate Hval.
  - destruct (Hmax r0 m0 Hlt0 Hsc0 Hval0) as [Hle Hbefore].
    destruct (Hmax0 r m Hlt Hsc Hval) as [Hle0 Hbefore0].
    destruct (Nat.lt_total r r0) as [Hcmp | [Heq | Hcmp]].
    + specialize (Hbefore0 Hcmp). lra.
    + exact Heq.
    + specialize (Hbefore Hcmp). lra.
Qed.

Lemma lockScan_first_maximum_witness :
  1%nat = lockScan [[1; 3]; [3; 2]] 3 (seq 0 2) NegInf 0.
Proof.
  destruct (lockScan_first_maximum [[1; 3]; [3; 2]] 3 2) as [_ Honly].
  apply Honly. right.
  split; [lia|]. split; [vm_compute; discriminate|].
  exists 3. split; [reflexivity|].
  intros [|[|i]] x Hi _ Hx; [| |lia].
  - injection Hx as <-.
    split; [|intros _]; vm_compute; [discriminate | reflexivity].
  - injection Hx as <-. split; [vm_compute; discriminate | lia].
Defined.

(** *** Examples for the lemmas on lookups and totals *)

Lemma getData_inside_witness :
  exists x,
    nth_error (concat [[1; 2]; [3; 4]]) (Z.to_nat 3) = Some x /\
    getData [[1; 2]; [3; 4]] (inject_Z 3) = JSNumber x.
Proof.
  apply (getData_inside 2 [[1; 2]; [3; 4]] 3).
  - repeat constructor.
  - vm_compute. split; [discriminate | reflexivity].
Defined.

Lemma update_bufLen_total_witness :
  bufLen (snd (update 10 (mkProps 44100 (Some [[1; 2]; [3; 4]]) true)
                 (Some [[1; 2]; [3; 4]]) data))
  = inject_Z (totalSamples [[1; 2]; [3; 4]]).
Proof.
  apply (update_bufLen_total 10
           (mkProps 44100 (Some [[1; 2]; [3; 4]]) true) 2
           [1; 2] [[3; 4]] data).
  repeat constructor.
Defined.

End ViewerMore.

(** * Properties of the parent component *)

Module MusiscopeFacts.

Import Musiscope.

(** *** [indexOf] and [splice] *)

Lemma indexOf_absent x a : ~ In x a -> indexOf x a = -1.
Proof.
  induction a as [|y a IH]; intros Hnot; cbn [indexOf]; [reflexivity|].
  destruct (Nat.eqb_spec x y) as [-> | _].
  - exfalso. apply Hnot. now left.
  - rewrite IH by (intros H; apply Hnot; now right). reflexivity.
Qed.

Lemma indexOf_present x l1 l2 :
  ~ In x l1 -> indexOf x (l1 ++ x :: l2) = Z.of_nat (length l1).
Proof.
  induction l1 as [|y l1 IH]; intros Hnot; cbn [app indexOf length].
  - now rewrite Nat.eqb_refl.
  - destruct (Nat.eqb_spec x y) as [-> | _].
    + exfalso. apply Hnot. now left.
    + rewrite IH by (intros H; apply Hnot; now right).
      destruct (Z.ltb_spec (Z.of_nat (length l1)) 0); lia.
Qed.

Lemma spliceOne_at {A} (l1 : list A) x l2 :
  spliceOne (Z.of_nat (length l1)) (l1 ++ x :: l2) = l1 ++ l2.
Proof.
  unfold spliceOne, relativeIndex.
  destruct (Z.ltb_spec (Z.of_nat (length l1)) 0); [lia|].
  rewrite length_app. cbn [length].
  rewrite Z.min_l by lia. rewrite Nat2Z.id.
  rewrite firstn_app, Nat.sub_diag, firstn_O, app_nil_r, firstn_all.
  replace (S (length l1)) with (length (l1 ++ [x]))
    by (rewrite length_app; cbn; lia).
  change (l1 ++ x :: l2) with (l1 ++ [x] ++ l2).
  rewrite app_assoc, skipn_app, Nat.sub_diag, skipn_all.
  reflexivity.
Qed.

Lemma spliceOne_minus_one {A} (a : list A) : spliceOne (-1) a = removelast a.
Proof.
  unfold spliceOne, relativeIndex. cbn [Z.ltb Z.compare].
  destruct a as [|x a]; [reflexivity|].
  assert (Hk : Z.to_nat (Z.max (Z.of_nat (length (x :: a)) + -1) 0)
               = pred (length (x :: a))) by (cbn [length]; lia).
  rewrite Hk. cbn [pred length].
  rewrite (skipn_all2 (n := S (length a))) by (cbn; lia).
  rewrite app_nil_r. symmetry. apply (removelast_firstn_len (x :: a)).
Qed.

Lemma filter_absent x (l : list nat) :
  ~ In x l -> filter (fun y => negb (Nat.eqb x y)) l = l.
Proof.
  induction l as [|y l IH]; intros Hnot; cbn [filter]; [reflexivity|].
  destruct (Nat.eqb_spec x y) as [-> | _].
  - exfalso. apply Hnot. now left.
  - cbn [negb]. rewrite IH by (intros H; apply Hnot; now right).
    reflexivity.
Qed.

Lemma onended_tracked player a :
  In player (players a) -> NoDup (players a) ->
  players (snd (onended player a))
  = filter (fun y => negb (Nat.eqb player y)) (players a).
Proof.
  unfold onended, modify. cbn [snd players set_players].
  intros Hin Hnodup.
  apply in_split in Hin. destruct Hin as (l1 & l2 & Hsplit).
  rewrite Hsplit in *.
  apply NoDup_remove_2 in Hnodup.
  assert (H1 : ~ In player l1)
    by (intros H; apply Hnodup, in_or_app; now left).
  assert (H2 : ~ In player l2)
    by (intros H; apply Hnodup, in_or_app; now right).
  rewrite (indexOf_present player l1 l2 H1), spliceOne_at.
  rewrite filter_app. cbn [filter]. rewrite Nat.eqb_refl. cbn [negb].
  now rewrite !filter_absent.
Qed.

Lemma onended_untracked player a :
  ~ In player (players a) ->
  players (snd (onended player a)) = removelast (players a).
Proof.
  unfold onended, modify. cbn [snd players set_players].
  intros Hnot. rewrite (indexOf_absent _ _ Hnot).
  apply spliceOne_minus_one.
Qed.

(** X14.  When a player ends: if it is tracked (and no player is
    tracked twice) it is taken out of [players] and the others stay, in
    their order; if it is not tracked any more, [indexOf] is [-1] and
    [splice(-1, 1)] takes out the last tracked player instead. *)
Theorem onended_removes player a :
  (In player (players a) -> NoDup (players a) ->
   players (snd (onended player a))
   = filter (fun y => negb (Nat.eqb player y)) (players a)) /\
  (~ In player (players a) ->
   players (snd (onended player a)) = removelast (players a)).
Proof.
  split; [apply onended_tracked | apply onended_untracked].
Qed.

Lemma onended_removes_witness :
  players (snd (onended 1 (mk (AudioRecorder.constructor 44100)
                             WaveViewer.data false [0; 1; 2]%nat 3)))
  = [0; 2]%nat /\
  players (snd (onended 7 (mk (AudioRecorder.constructor 44100)
                             WaveViewer.data false [0; 1; 2]%nat 3)))
  = [0; 1]%nat.
Proof.
  split.
  - apply (onended_removes 1
             (mk (AudioRecorder.constructor 44100) WaveViewer.data false
                [0; 1; 2]%nat 3)).
    + cbn. tauto.
    + repeat constructor; cbn; intuition discriminate.
  - apply (onended_removes 7
             (mk (AudioRecorder.constructor 44100) WaveViewer.data false
                [0; 1; 2]%nat 3)).
    cbn. intuition discriminate.
Defined.

(** *** Stopping the players *)

Lemma stopLoop_result (ps stopped : list nat) :
  forall fuel, (length ps <= fuel)%nat ->
    while fuel (fun '(ps, _) => negb (Nat.eqb (length ps) 0))
      (fun '(ps, stopped) => (removelast ps, stopped ++ [last ps 0%nat]))
      (ps, stopped)
    = Ok ([], stopped ++ rev ps).
Proof.
  revert stopped. induction ps as [|x ps IH] using rev_ind;
    intros stopped fuel Hfuel.
  - rewrite ViewerFacts.while_false by reflexivity.
    now rewrite app_nil_r.
  - rewrite length_app in Hfuel. cbn [length] in Hfuel.
    destruct fuel as [|fuel]; [lia|].
    rewrite ViewerFacts.while_true.
    2:{ rewrite length_app. cbn [length].
        now replace (length ps + 1)%nat with (S (length ps)) by lia. }
    rewrite removelast_last, last_last, IH by lia.
    now rewrite rev_app_distr, <- app_assoc.
Qed.

Lemma stopAllPlayers_run a :
  stopAllPlayers a = (Ok (rev (players a)), set_players [] a).
Proof.
  unfold stopAllPlayers, bind, get, lift, modify, ret. cbv beta iota.
  rewrite stopLoop_result by lia. reflexivity.
Qed.

(** X15.  [stopAllPlayers] returns, whatever is tracked: every tracked
    player is stopped once, the last started first, and none is left
    in [players]; with no player it does nothing. *)
Theorem stopAllPlayers_stops_all a :
  let stopped := rev (players a) in
  stopAllPlayers a = (Ok stopped, set_players [] a) /\
  (forall player, In player (players a) <-> In player stopped) /\
  (NoDup (players a) -> NoDup stopped) /\
  (players a = [] -> stopAllPlayers a = (Ok [], a)).
Proof.
  cbv zeta. split; [apply stopAllPlayers_run|].
  split; [intros player; apply in_rev|].
  split; [apply NoDup_rev|].
  intros Hnone. rewrite stopAllPlayers_run, Hnone.
  destruct a as [r v sel ps n]. cbn in Hnone. now subst ps.
Qed.

(** *** Playing the clip *)

Lemma playClip_run a :
  playClip a
  = match AudioRecorder.getBuffer None None (recorder a) with
    | (Ok _, r) =>
        (Ok tt,
         mk r (viewer a) (selection a) (players a ++ [created a])
           (S (created a)))
    | (Throw e, r) =>
        (Throw e,
         mk r (viewer a) (selection a) (players a) (S (created a)))
    | (OutOfFuel, r) =>
        (OutOfFuel,
         mk r (viewer a) (selection a) (players a) (S (created a)))
    end.
Proof.
  unfold playClip, bind, get, modify, onRecorder. cbv beta iota.
  cbn [recorder set_created created].
  destruct (AudioRecorder.getBuffer None None (recorder a)) as [[buf|e|] r];
    reflexivity.
Qed.

(** X16.  [playClip] tracks its player only when it got the clip: on
    a recorder without blocks and without clip it raises [TypeError]
    and [players] is as before; when [getBuffer()] returns, the new
    player is the last of [players] and the others are untouched. *)
Theorem playClip_tracks a :
  (AudioRecorder.buffers (recorder a) = [] ->
   AudioRecorder.clip (recorder a) = None ->
   fst (playClip a) = Throw TypeError /\
   players (snd (playClip a)) = players a) /\
  (forall buf r,
     AudioRecorder.getBuffer None None (recorder a) = (Ok buf, r) ->
     fst (playClip a) = Ok tt /\
     players (snd (playClip a)) = players a ++ [created a]).
Proof.
  split.
  - intros Hbufs Hclip. rewrite playClip_run.
    destruct (recorder a) as [sr bs c node rec]. cbn in Hbufs, Hclip.
    subst bs c. rewrite StoreFacts.getBuffer_cleared. now split.
  - intros buf r Hget. rewrite playClip_run, Hget. now split.
Qed.

Lemma playClip_tracks_witness :
  let a := mk (AudioRecorder.appended 44100 [[1; 2]]%Q) WaveViewer.data
             false [0]%nat 1 in
  fst (playClip a) = Ok tt /\ players (snd (playClip a)) = [0; 1]%nat.
Proof.
  intros a.
  destruct (playClip_tracks a) as [_ Hplays].
  apply (Hplays (mkAudioBuffer 44100 [1; 2]%Q)
           (snd (AudioRecorder.getBuffer None None (recorder a)))).
  reflexivity.
Defined.

(** X17.  A player that ends late unseats the next one: after
    [stopAllPlayers], a [playClip] that gets its clip, and then the
    [onended] of one of the stopped players, [players] is empty,
    although the new player was not among those stopped. *)
Theorem late_ended_untracks_new_player a buf r s :
  AudioRecorder.getBuffer None None (recorder a) = (Ok buf, r) ->
  Forall (fun id => (id < created a)%nat) (players a) ->
  In s (players a) ->
  let a1 := snd (stopAllPlayers a) in
  let a2 := snd (playClip a1) in
  let a3 := snd (onended s a2) in
  In s (rev (players a)) /\ ~ In (created a) (rev (players a)) /\
  players a1 = [] /\ players a2 = [created a] /\ players a3 = [].
Proof.
  intros Hget Hfresh Hs a1 a2 a3.
  assert (Hnew : ~ In (created a) (players a)).
  { intros Hin. rewrite Forall_forall in Hfresh.
    specialize (Hfresh _ Hin). lia. }
  assert (H1 : a1 = set_players [] a).
  { subst a1. now rewrite stopAllPlayers_run. }
  assert (H2 : players a2 = [created a]).
  { subst a2. rewrite playClip_run, H1. cbn [recorder set_players].
    rewrite Hget. reflexivity. }
  split; [now apply -> in_rev|].
  split; [intros Hin; now apply in_rev in Hin|].
  split; [now rewrite H1|]. split; [exact H2|].
  subst a3. rewrite onended_untracked; [now rewrite H2|].
  rewrite H2. intros [Heq | []]. apply Hnew. now rewrite Heq.
Qed.

Lemma late_ended_untracks_new_player_witness :
  let a := mk (AudioRecorder.appended 44100 [[1; 2]]%Q) WaveViewer.data
             false [0; 1]%nat 2 in
  let a1 := snd (stopAllPlayers a) in
  let a2 := snd (playClip a1) in
  let a3 := snd (onended 0 a2) in
  In 0%nat (rev (players a)) /\ ~ In (created a) (rev (players a)) /\
  players a1 = [] /\ players a2 = [created a] /\ players a3 = [].
Proof.
  intros a.
  apply (late_ended_untracks_new_player a
           (mkAudioBuffer 44100 [1; 2]%Q)
           (snd (AudioRecorder.getBuffer None None (recorder a))) 0).
  - reflexivity.
  - repeat constructor.
  - cbn. tauto.
Defined.

(** *** The selection of the parent *)

Lemma viewerEvent_mouseup fuel a :
  viewerEvent fuel WaveViewer.MouseUp a
  = (Ok tt,
     let v := snd (WaveViewer.mouseup (viewer a)) in
     set_selection
       (negb (Qeq_bool
                (WaveViewer.sel_end (WaveViewer.selection v)
                 - WaveViewer.sel_start (WaveViewer.selection v)) 0))
       (set_viewer v a)).
Proof. reflexivity. Qed.

Lemma viewerEvent_other fuel e a :
  e <> WaveViewer.MouseUp ->
  snd (viewerEvent fuel e a)
  = set_viewer
      (snd (WaveViewer.handle fuel (viewerProps a) e (viewer a))) a.
Proof.
  intros He. unfold viewerEvent, bind, get, onViewer. cbv beta iota.
  destruct (WaveViewer.handle fuel (viewerProps a) e (viewer a))
    as [[[]|x|] v]; cbn [snd]; try reflexivity.
  destruct e; try reflexivity. congruence.
Qed.

Lemma clearClicked_state fuel a :
  exists c,
    snd (clearClicked fuel a)
    = mk (snd (AudioRecorder.clear (recorder a)))
        (WaveViewer.set_canvas c
           (WaveViewer.set_end 0
              (WaveViewer.set_bufLen 0
                 (WaveViewer.set_sel_end 0
                    (WaveViewer.set_sel_start 0 (viewer a))))))
        (selection a) (players a) (created a).
Proof.
  set (a1 := set_recorder (snd (AudioRecorder.clear (recorder a))) a).
  assert (Hm : onRecorder AudioRecorder.clear a = (Ok tt, a1))
    by reflexivity.
  unfold clearClicked, bind. rewrite Hm.
  rewrite viewerEvent_other by discriminate.
  cbn [WaveViewer.handle].
  change (WaveViewer.buffers (viewerProps a1))
    with (@Some (list Float32Array) []).
  destruct (ViewerFacts.update_empty_state fuel (viewerProps a1)
              (Some []) (viewer a1)) as [c Hupd]; [now right|].
  exists c. rewrite Hupd. reflexivity.
Qed.

(** X18.  What the parent keeps of a selection.  At a positive scale:
    a press and a release without a move leave [selection] null; a
    press at sample [i0], a move to [i1 > i0] and a release leave it
    set, the selection being [{i0, i1}]; and when the recording is
    then cleared, [selection] is still set, while the selection it
    stands for has become [{0, 0}] and the store is empty. *)
Theorem parent_selection fuel a x0 x1 :
  let v := viewer a in
  let i0 := WaveViewer.sampleIndex v x0 in
  let i1 := WaveViewer.sampleIndex v x1 in
  (0 < WaveViewer.scale v)%Q -> (i0 < i1)%Q ->
  let press := snd (viewerEvent fuel (WaveViewer.MouseDown x0) a) in
  let click := snd (viewerEvent fuel WaveViewer.MouseUp press) in
  let moved := snd (viewerEvent fuel (WaveViewer.MouseMove x1) press) in
  let drag := snd (viewerEvent fuel WaveViewer.MouseUp moved) in
  let cleared := snd (clearClicked fuel drag) in
  selection click = false /\
  (selection drag = true /\
   WaveViewer.selection (viewer drag) = WaveViewer.mkSelection i0 i1) /\
  (selection cleared = true /\
   WaveViewer.selection (viewer cleared) = WaveViewer.mkSelection 0 0 /\
   AudioRecorder.buffers (recorder cleared) = []).
Proof.
  intros v i0 i1 _ Hlt press click moved drag cleared.
  (* the press *)
  destruct (ViewerFacts.mousedown_state fuel (viewerProps a) x0 v)
    as [c0 Hdown].
  assert (Hpress : viewer press
                   = WaveViewer.set_canvas c0
                       (WaveViewer.set_selection
                          (WaveViewer.mkSelection i0 i0)
                          (WaveViewer.set_dragging true v))).
  { subst press. rewrite viewerEvent_other by discriminate.
    cbn [viewer set_viewer WaveViewer.handle]. exact Hdown. }
  (* a release at once *)
  assert (Hclick : selection click = false).
  { subst click. rewrite viewerEvent_mouseup. cbv zeta.
    cbn [snd selection set_selection viewer set_viewer].
    rewrite ViewerFacts.mouseup_state, Hpress. cbn.
    apply negb_false_iff, Qeq_bool_iff. ring. }
  (* the move *)
  destruct (ViewerFacts.mousemove_state fuel (viewerProps press) x1
              (viewer press)) as [c1 Hmove].
  { now rewrite Hpress. }
  assert (Hmoved : viewer moved
                   = WaveViewer.set_canvas c1
                       (WaveViewer.set_selection
                          (WaveViewer.mkSelection i0 i1)
                          (WaveViewer.set_dragging true v))).
  { subst moved. rewrite viewerEvent_other by discriminate.
    cbn [viewer set_viewer WaveViewer.handle]. rewrite Hmove, Hpress.
    change (WaveViewer.sampleIndex
              (WaveViewer.set_canvas c0
                 (WaveViewer.set_selection (WaveViewer.mkSelection i0 i0)
                    (WaveViewer.set_dragging true v))) x1) with i1.
    cbn [WaveViewer.selection WaveViewer.sel_start WaveViewer.set_canvas
         WaveViewer.set_selection WaveViewer.set_dragging].
    assert (Hgt : Qgtb i1 i0 = true) by now apply Qltb_lt.
    rewrite Hgt. reflexivity. }
  (* the release *)
  assert (Hdrag : drag
                  = set_selection
                      (negb (Qeq_bool (i1 - i0) 0))
                      (set_viewer (snd (WaveViewer.mouseup (viewer moved)))
                         moved)).
  { subst drag. rewrite viewerEvent_mouseup. cbv zeta. cbn [snd].
    rewrite ViewerFacts.mouseup_state, Hmoved. reflexivity. }
  assert (Hset : negb (Qeq_bool (i1 - i0) 0) = true).
  { apply negb_true_iff, not_true_iff_false. intros Heq.
    apply Qeq_bool_iff in Heq. lra. }
  rewrite Hset in Hdrag.
  split; [exact Hclick|]. split.
  { rewrite Hdrag. split; [reflexivity|].
    cbn [viewer set_selection set_viewer].
    rewrite ViewerFacts.mouseup_state, Hmoved. reflexivity. }
  (* the clear button *)
  destruct (clearClicked_state fuel drag) as [c2 Hclear].
  subst cleared. rewrite Hclear, Hdrag. repeat split.
Qed.

Lemma parent_selection_witness :
  let a := mk (AudioRecorder.appended 44100 [[1; 2]]%Q)
             (WaveViewer.set_scale (1 # 2)
                (WaveViewer.set_bufLen 1000
                   (WaveViewer.set_end 1000 WaveViewer.data)))
             false [] 0 in
  let press := snd (viewerEvent 10 (WaveViewer.MouseDown 250) a) in
  let click := snd (viewerEvent 10 WaveViewer.MouseUp press) in
  let moved := snd (viewerEvent 10 (WaveViewer.MouseMove 400) press) in
  let drag := snd (viewerEvent 10 WaveViewer.MouseUp moved) in
  let cleared := snd (clearClicked 10 drag) in
  selection click = false /\
  (selection drag = true /\
   WaveViewer.selection (viewer drag) = WaveViewer.mkSelection 500 800) /\
  (selection cleared = true /\
   WaveViewer.selection (viewer cleared) = WaveViewer.mkSelection 0 0 /\
   AudioRecorder.buffers (recorder cleared) = []).
Proof.
  intros a.
  refine (parent_selection 10 a 250 400 _ _).
  - reflexivity.
  - vm_compute. reflexivity.
Defined.

End MusiscopeFacts.
